(** * Pexels media server: download manager, organization manager, cache manager

    A shallow embedding of the three stateful components of the server
    (download-manager.ts, organization-manager.ts, cache-manager.ts) and
    the properties of the ledger ([metadata.json]), of the rendition and
    category selection, and of the TTL cache; followed by the API client
    (pexels-client.ts), the usage tracker (usage-tracker.ts) and the two
    tool handlers of index.ts that fetch video details.

    Conventions.
    - JavaScript strings are modelled as [string] (ASCII); [toLowerCase]
      folds the letters A-Z only.
    - Integer valued numbers (ids, byte sizes, pixel dimensions, epoch
      milliseconds, whole seconds of cache lifetime) are [Z]; numbers that
      the provider reports with a fractional part (durations, frame rates)
      are [Q].
    - Asynchronous methods are embedded as computations in a state and
      exception monad [M]; [await] is sequencing, [try/catch] is [try_catch].
      The outcome of every call to a collaborator that can fail (file
      system, HTTP) is read from an environment record [Env].
    - Logger calls have no effect on the modelled state and are left out. *)

From Stdlib Require Import ZArith QArith Qround String Ascii List Bool Lia Sorted.
From stdpp Require Import gmap strings list fin_maps pretty.

Local Open Scope string_scope.
Local Open Scope Z_scope.

(** ** Strings *)

(** [String.prototype.includes]. *)
Fixpoint includes (s sub : string) : bool :=
  if String.prefix sub s then true
  else match s with
       | EmptyString => false
       | String _ s' => includes s' sub
       end.

Definition lower_ascii (c : ascii) : ascii :=
  let n := nat_of_ascii c in
  if (65 <=? n)%nat && (n <=? 90)%nat then ascii_of_nat (n + 32) else c.

(** [String.prototype.toLowerCase] on ASCII text. *)
Fixpoint toLowerCase (s : string) : string :=
  match s with
  | EmptyString => EmptyString
  | String c s' => String (lower_ascii c) (toLowerCase s')
  end.

(** [Array.prototype.join]. *)
Definition join (sep : string) (l : list string) : string := String.concat sep l.

Definition is_alnum (c : ascii) : bool :=
  let n := nat_of_ascii c in
  ((48 <=? n) && (n <=? 57) || (65 <=? n) && (n <=? 90) || (97 <=? n) && (n <=? 122))%nat.

(** The class [\s] restricted to ASCII: tab, line feed, vertical tab, form
    feed, carriage return and space. *)
Definition is_space (c : ascii) : bool :=
  let n := nat_of_ascii c in
  ((9 <=? n) && (n <=? 13) || (n =? 32))%nat.

Fixpoint string_filter (p : ascii -> bool) (s : string) : string :=
  match s with
  | EmptyString => EmptyString
  | String c s' => if p c then String c (string_filter p s') else string_filter p s'
  end.

(** [s.replace(/\s+/g, '_')]: [in_run] tells that the previous character
    belonged to a run of white space that has already been replaced. *)
Fixpoint replace_spaces (in_run : bool) (s : string) : string :=
  match s with
  | EmptyString => EmptyString
  | String c s' =>
      if is_space c
      then (if in_run then replace_spaces true s' else String "_" (replace_spaces true s'))
      else String c (replace_spaces false s')
  end.

(** [path.join] of two segments (no normalisation of dots and slashes). *)
Definition path_join (dir file : string) : string := dir +:+ "/" +:+ file.

(** ** Computations with state and exceptions *)

Inductive Outcome (A : Type) : Type :=
| Return (a : A)
| Throw (msg : string).
Arguments Return {A} a.
Arguments Throw {A} msg.

Definition M (S A : Type) : Type := S -> Outcome A * S.

Definition ret {S A} (a : A) : M S A := fun s => (Return a, s).

Definition bind {S A B} (m : M S A) (k : A -> M S B) : M S B :=
  fun s => match m s with
           | (Return a, s') => k a s'
           | (Throw msg, s') => (Throw msg, s')
           end.

Definition throw {S A} (msg : string) : M S A := fun s => (Throw msg, s).

(** [try { m } catch (error) { h error.message }]: the effects performed by
    [m] before it threw are kept. *)
Definition try_catch {S A} (m : M S A) (h : string -> M S A) : M S A :=
  fun s => match m s with
           | (Return a, s') => (Return a, s')
           | (Throw msg, s') => h msg s'
           end.

Definition get_state {S} : M S S := fun s => (Return s, s).
Definition modify {S} (f : S -> S) : M S unit := fun s => (Return tt, f s).

Notation "x <~ m ;; k" := (bind m (fun x => k))
  (at level 100, m at next level, right associativity, only parsing).
Notation "m ;;; k" := (bind m (fun _ => k))
  (at level 100, right associativity, only parsing).

Fixpoint mapM {S A B} (f : A -> M S B) (l : list A) : M S (list B) :=
  match l with
  | [] => ret []
  | x :: l' => y <~ f x ;; ys <~ mapM f l' ;; ret (y :: ys)
  end.

(** Runs a computation on a component [T] of the state [S]. *)
Definition zoom {S T A} (proj : S -> T) (upd : T -> S -> S) (m : M T A) : M S A :=
  fun s => let '(o, t) := m (proj s) in (o, upd t s).

(** ** Data model *)

(** One rendition of an asset (an element of [PexelsVideo.video_files]). *)
Record VideoFile : Type := {
  vf_id : Z;
  vf_quality : string;
  vf_file_type : string;
  vf_width : Z;
  vf_height : Z;
  vf_fps : Q;
  vf_link : string
}.

Record User : Type := {
  user_id : Z;
  user_name : string;
  user_url : string
}.

(** [PexelsVideo]; an absent [tags] field is the empty list. *)
Record PexelsVideo : Type := {
  pv_id : Z;
  pv_width : Z;
  pv_height : Z;
  pv_duration : Q;
  pv_url : string;
  pv_image : string;
  pv_avg_color : string;
  pv_user : User;
  video_files : list VideoFile;
  pv_tags : list string
}.

Inductive Quality : Type := hd | sd | mobile.

Definition quality_name (q : Quality) : string :=
  match q with hd => "hd" | sd => "sd" | mobile => "mobile" end.

Record DownloadOptions : Type := {
  video_id : Z;
  quality : option Quality;
  filename : option string;
  category : option string
}.

Record FilterCriteria : Type := {
  min_width : option Z;
  min_height : option Z;
  preferred_fps : option Q;
  exclude_ids : option (list Z)
}.

Record BatchDownloadOptions : Type := {
  max_videos : option Z;
  batch_quality : option Quality;
  batch_category : option string;
  filter_criteria : option FilterCriteria
}.

Inductive Status : Type := success | failed.

Record ResultMetadata : Type := {
  rm_width : Z;
  rm_height : Z;
  rm_duration : Q;
  rm_fps : Q;
  rm_codec : string;
  rm_bitrate : string
}.

Record DownloadResult : Type := {
  dr_video_id : Z;
  dr_local_path : string;
  dr_file_size : Z;
  dr_download_time : Q;
  dr_metadata : ResultMetadata;
  dr_status : Status;
  dr_error : option string
}.

Record PexelsMetadata : Type := {
  pm_width : Z;
  pm_height : Z;
  pm_duration : Q;
  pm_url : string;
  pm_tags : list string;
  pm_user : User
}.

(** [VideoMetadata], one record of the ledger [metadata.json];
    [download_date] is kept as epoch milliseconds. *)
Record VideoMetadata : Type := {
  vm_id : Z;
  vm_filename : string;
  vm_local_path : string;
  vm_file_size : Z;
  vm_download_date : Z;
  vm_category : option string;
  pexels_metadata : PexelsMetadata
}.

(** ** The world outside the process *)

(** What is stored at the path of the ledger: nothing, something that
    [fs.readJson] rejects or that is not an array of records, or an array
    of records. *)
Inductive FileState : Type :=
| Missing
| Corrupt
| Json (records : list VideoMetadata).

Record World : Type := {
  metadataFile : FileState;
  (** video files on disk, with their byte size *)
  disk : gmap string Z;
  (** directories created by [fs.ensureDir] *)
  dirs : gset string;
  (** HTTP transfers performed so far, latest first: asset id and link *)
  transfers : list (Z * string);
  (** [Date.now()] *)
  clock : Z
}.

Definition set_metadataFile (f : FileState) (w : World) : World :=
  {| metadataFile := f; disk := disk w; dirs := dirs w;
     transfers := transfers w; clock := clock w |}.

Definition set_disk (d : gmap string Z) (w : World) : World :=
  {| metadataFile := metadataFile w; disk := d; dirs := dirs w;
     transfers := transfers w; clock := clock w |}.

Definition set_dirs (d : gset string) (w : World) : World :=
  {| metadataFile := metadataFile w; disk := disk w; dirs := d;
     transfers := transfers w; clock := clock w |}.

Definition set_transfers (t : list (Z * string)) (w : World) : World :=
  {| metadataFile := metadataFile w; disk := disk w; dirs := dirs w;
     transfers := t; clock := clock w |}.

Definition set_clock (c : Z) (w : World) : World :=
  {| metadataFile := metadataFile w; disk := disk w; dirs := dirs w;
     transfers := transfers w; clock := c |}.

(** The outcome of the calls that can fail for reasons outside the
    process, as a function of the arguments of the call. *)
Record Env : Type := {
  (** [fs.ensureDir dir] *)
  env_ensureDir : string -> Outcome unit;
  (** [axios GET link]: the length of the body, or a transport error
      (which includes the 60 s timeout) *)
  env_get : string -> Outcome Z;
  (** milliseconds taken by the transfer from [link] *)
  env_latency : string -> Z;
  (** writing the stream to [path]: ['finish'] or ['error'] *)
  env_write : string -> Outcome unit;
  (** [fs.writeJson] of the ledger with the given records *)
  env_writeJson : list VideoMetadata -> Outcome unit;
  (** [fs.move src dest], beyond the checks on [disk] *)
  env_move : string -> string -> Outcome unit
}.

Definition lift_outcome {S A} (o : Outcome A) : M S A := fun s => (o, s).

Definition Date_now : M World Z := fun w => (Return (clock w), w).

Definition pathExists_metadataFile : M World bool :=
  fun w => (Return (match metadataFile w with Missing => false | _ => true end), w).

Definition readJson_metadataFile : M World (list VideoMetadata) :=
  fun w => match metadataFile w with
           | Json records => (Return records, w)
           | Missing => (Throw "ENOENT: no such file or directory", w)
           | Corrupt => (Throw "Unexpected token in JSON", w)
           end.

(** A failed write leaves the previous contents in place. *)
Definition writeJson_metadataFile (E : Env) (records : list VideoMetadata) : M World unit :=
  lift_outcome (env_writeJson E records) ;;;
  modify (set_metadataFile (Json records)).

Definition ensureDir (E : Env) (dir : string) : M World unit :=
  lift_outcome (env_ensureDir E dir) ;;;
  modify (fun w => set_dirs ({[dir]} ∪ dirs w) w).

(** The request of [link] on behalf of asset [videoId]; the request is
    logged whether or not it succeeds. *)
Definition axios_get (E : Env) (videoId : Z) (link : string) : M World Z :=
  modify (fun w => set_clock (clock w + env_latency E link)
                     (set_transfers ((videoId, link) :: transfers w) w)) ;;;
  lift_outcome (env_get E link).

(** Piping the body ([size] bytes) to [path] and waiting for ['finish']. *)
Definition write_stream (E : Env) (path : string) (size : Z) : M World unit :=
  lift_outcome (env_write E path) ;;;
  modify (fun w => set_disk (<[path := size]> (disk w)) w).

(** [fs.stat(path).size] *)
Definition stat_size (path : string) : M World Z :=
  fun w => match disk w !! path with
           | Some size => (Return size, w)
           | None => (Throw "ENOENT: no such file or directory", w)
           end.

(** [fs.move src dest] (without [overwrite]): the source must exist and
    the destination must not. *)
Definition fs_move (E : Env) (src dest : string) : M World unit :=
  fun w => match disk w !! src with
           | None => (Throw "ENOENT: no such file or directory", w)
           | Some size =>
               match disk w !! dest with
               | Some _ => (Throw "dest already exists.", w)
               | None =>
                   match env_move E src dest with
                   | Throw msg => (Throw msg, w)
                   | Return _ => (Return tt, set_disk (<[dest := size]> (delete src (disk w))) w)
                   end
               end
           end.

(** ** DownloadManager (download-manager.ts) *)

(** The fields of the object that matter here; [maxConcurrent] is the
    argument handed to the limiter in the constructor. *)
Record DownloadManager : Type := {
  downloadPath : string;
  maxConcurrent : nat;
  downloadedVideos : gset Z
}.

Definition set_downloadedVideos (d : gset Z) (this : DownloadManager) : DownloadManager :=
  {| downloadPath := downloadPath this; maxConcurrent := maxConcurrent this;
     downloadedVideos := d |}.

(** The state a method of the manager runs in. *)
Record Sys : Type := {
  this : DownloadManager;
  world : World
}.

Definition set_this (t : DownloadManager) (s : Sys) : Sys := {| this := t; world := world s |}.
Definition set_world (w : World) (s : Sys) : Sys := {| this := this s; world := w |}.

Definition in_world {A} (m : M World A) : M Sys A := zoom world set_world m.

(** [this.downloadedVideos.has(id)] and [this.downloadedVideos.add(id)] *)
Definition downloadedVideos_has (id : Z) : M Sys bool :=
  fun s => (Return (bool_decide (id ∈ downloadedVideos (this s))), s).

Definition downloadedVideos_add (id : Z) : M Sys unit :=
  modify (fun s => set_this (set_downloadedVideos ({[id]} ∪ downloadedVideos (this s)) (this s)) s).

Definition loadMetadata : M Sys unit :=
  try_catch
    (present <~ in_world pathExists_metadataFile ;;
     if present : bool then
       metadata <~ in_world readJson_metadataFile ;;
       mapM (fun video => downloadedVideos_add (vm_id video)) metadata ;;;
       ret tt
     else ret tt)
    (fun _ => ret tt).

Definition initialize (E : Env) : M Sys unit :=
  s <~ get_state ;;
  in_world (ensureDir E (downloadPath (this s))) ;;;
  loadMetadata.

(** [new DownloadManager(downloadPath, maxConcurrent, logger)] in world [w],
    once the (un-awaited) call of [initialize] has run. *)
Definition new_DownloadManager (E : Env) (path : string) (n : nat) (w : World) : Sys :=
  snd (initialize E {| this := {| downloadPath := path; maxConcurrent := n;
                                  downloadedVideos := ∅ |};
                       world := w |}).

Definition saveMetadata (E : Env) (videoMetadata : VideoMetadata) : M Sys unit :=
  try_catch
    (present <~ in_world pathExists_metadataFile ;;
     metadata <~ (if present : bool then in_world readJson_metadataFile else ret []) ;;
     (* Remove existing entry if it exists *)
     let metadata := List.filter (fun video => negb (vm_id video =? vm_id videoMetadata)) metadata in
     (* Add new entry *)
     let metadata := (metadata ++ [videoMetadata])%list in
     in_world (writeJson_metadataFile E metadata) ;;;
     downloadedVideos_add (vm_id videoMetadata))
    (fun _ => ret tt).

Definition qualityOrder (q : Quality) : list string :=
  match q with
  | hd => ["hd"; "sd"; "mobile"]
  | sd => ["sd"; "hd"; "mobile"]
  | mobile => ["mobile"; "sd"; "hd"]
  end.

(** The loop over [preferredQualities] with its early [return]. *)
Fixpoint find_preferred (preferredQualities : list string) (videoFiles : list VideoFile)
  : option VideoFile :=
  match preferredQualities with
  | [] => None
  | preferredQuality :: rest =>
      match List.find (fun f => String.eqb (vf_quality f) preferredQuality) videoFiles with
      | Some file => Some file
      | None => find_preferred rest videoFiles
      end
  end.

(** [None] stands for [undefined], the value of [videoFiles[0]] on an empty
    array. *)
Definition selectBestQuality (videoFiles : list VideoFile) (q : Quality) : option VideoFile :=
  match find_preferred (qualityOrder q) videoFiles with
  | Some file => Some file
  | None => head videoFiles   (* Fallback to first available file *)
  end.

Definition sanitizeTitle (title : string) : string :=
  toLowerCase
    (replace_spaces false
       (string_filter (fun c => is_alnum c || is_space c || Ascii.eqb c "-") title)).

Definition generateFilename (videoData : PexelsVideo) (timestamp : Z) : string :=
  let tags := match pv_tags videoData with
              | [] => "video"
              | _ => join "_" (take 2 (pv_tags videoData))
              end in
  sanitizeTitle tags +:+ "_" +:+ pretty (pv_id videoData) +:+ "_" +:+ pretty timestamp +:+ ".mp4".

Definition extractCodec (fileType : string) : string :=
  if includes fileType "mp4" then "h264"
  else if includes fileType "webm" then "vp8"
  else "unknown".

(** [Math.round] *)
Definition Math_round (x : Q) : Z := Qfloor (x + (1 # 2)).

Definition estimateBitrate (fileSize : Z) (duration : Q) : string :=
  if Qeq_bool duration 0 then "unknown"
  else pretty (Math_round (inject_Z (fileSize * 8) / duration / 1000)) +:+ "kbps".

Definition getExistingDownloadResult (videoId : Z) : M Sys DownloadResult :=
  found <~ try_catch
             (metadata <~ in_world readJson_metadataFile ;;
              match List.find (fun v => vm_id v =? videoId) metadata with
              | Some videoMetadata =>
                  ret (Some {| dr_video_id := videoId;
                               dr_local_path := vm_local_path videoMetadata;
                               dr_file_size := vm_file_size videoMetadata;
                               dr_download_time := 0;
                               dr_metadata :=
                                 {| rm_width := pm_width (pexels_metadata videoMetadata);
                                    rm_height := pm_height (pexels_metadata videoMetadata);
                                    rm_duration := pm_duration (pexels_metadata videoMetadata);
                                    rm_fps := 0;
                                    rm_codec := "unknown";
                                    rm_bitrate := "unknown" |};
                               dr_status := success;
                               dr_error := None |})
              | None => ret None
              end)
             (fun _ => ret None) ;;
  match found with
  | Some result => ret result
  | None => throw ("Video " +:+ pretty videoId +:+ " not found in downloads")
  end.

(** A string option in a condition: [undefined] and [''] are falsy. *)
Definition truthy_string (o : option string) : option string :=
  match o with
  | Some "" => None
  | _ => o
  end.

(** [`${options.quality}`] *)
Definition quality_text (q : option Quality) : string :=
  match q with
  | Some q => quality_name q
  | None => "undefined"
  end.

(** [(end - start) / 1000] *)
Definition seconds_between (startTime endTime : Z) : Q := inject_Z (endTime - startTime) / 1000.

Definition downloadVideo (E : Env) (videoDetails : PexelsVideo) (options : DownloadOptions)
  : M Sys DownloadResult :=
  startTime <~ in_world Date_now ;;
  let videoId := video_id options in
  try_catch
    ((* Check if already downloaded *)
     already <~ downloadedVideos_has videoId ;;
     if already : bool then getExistingDownloadResult videoId
     else
       (* Find the best quality video file *)
       match selectBestQuality (video_files videoDetails) (default hd (quality options)) with
       | None => throw ("No suitable video file found for quality: "
                        +:+ quality_text (quality options))
       | Some videoFile =>
           s <~ get_state ;;
           (* Generate filename *)
           name <~ match truthy_string (filename options) with
                   | Some name => ret name
                   | None => timestamp <~ in_world Date_now ;;
                             ret (generateFilename videoDetails timestamp)
                   end ;;
           let categoryPath := match truthy_string (category options) with
                               | Some c => path_join (downloadPath (this s)) c
                               | None => downloadPath (this s)
                               end in
           let localPath := path_join categoryPath name in
           (* Ensure category directory exists *)
           in_world (ensureDir E categoryPath) ;;;
           (* Download the video *)
           body <~ in_world (axios_get E videoId (vf_link videoFile)) ;;
           in_world (write_stream E localPath body) ;;;
           size <~ in_world (stat_size localPath) ;;
           endTime <~ in_world Date_now ;;
           let downloadTime := seconds_between startTime endTime in
           (* Save metadata *)
           date <~ in_world Date_now ;;
           saveMetadata E
             {| vm_id := videoId;
                vm_filename := name;
                vm_local_path := localPath;
                vm_file_size := size;
                vm_download_date := date;
                vm_category := category options;
                pexels_metadata :=
                  {| pm_width := pv_width videoDetails;
                     pm_height := pv_height videoDetails;
                     pm_duration := pv_duration videoDetails;
                     pm_url := pv_url videoDetails;
                     pm_tags := pv_tags videoDetails;
                     pm_user := pv_user videoDetails |} |} ;;;
           ret {| dr_video_id := videoId;
                  dr_local_path := localPath;
                  dr_file_size := size;
                  dr_download_time := downloadTime;
                  dr_metadata :=
                    {| rm_width := vf_width videoFile;
                       rm_height := vf_height videoFile;
                       rm_duration := pv_duration videoDetails;
                       rm_fps := vf_fps videoFile;
                       rm_codec := extractCodec (vf_file_type videoFile);
                       rm_bitrate := estimateBitrate size (pv_duration videoDetails) |};
                  dr_status := success;
                  dr_error := None |}
       end)
    (fun message =>
       endTime <~ in_world Date_now ;;
       ret {| dr_video_id := videoId;
              dr_local_path := "";
              dr_file_size := 0;
              dr_download_time := seconds_between startTime endTime;
              dr_metadata := {| rm_width := 0; rm_height := 0; rm_duration := 0;
                                rm_fps := 0; rm_codec := ""; rm_bitrate := "" |};
              dr_status := failed;
              dr_error := Some message |}).

(** A number in a condition: [undefined] and [0] are falsy. *)
Definition truthy_Z (o : option Z) : option Z :=
  match o with
  | Some 0 => None
  | _ => o
  end.

Definition truthy_Q (o : option Q) : option Q :=
  match o with
  | Some q => if Qeq_bool q 0 then None else Some q
  | None => None
  end.

(** The body of the callback handed to [videos.filter] in [filterVideos]. *)
Definition keeps (this : DownloadManager) (criteria : FilterCriteria) (video : PexelsVideo) : bool :=
  (* Filter by dimensions *)
  if match truthy_Z (min_width criteria) with
     | Some w => pv_width video <? w | None => false end then false
  else if match truthy_Z (min_height criteria) with
          | Some h => pv_height video <? h | None => false end then false
  (* Filter by FPS *)
  else if match truthy_Q (preferred_fps criteria) with
          | Some fps => negb (existsb (fun file => Qeq_bool (vf_fps file) fps) (video_files video))
          | None => false end then false
  (* Exclude specific IDs *)
  else if match exclude_ids criteria with
          | Some ids => existsb (Z.eqb (pv_id video)) ids | None => false end then false
  (* Skip already downloaded videos *)
  else if bool_decide (pv_id video ∈ downloadedVideos this) then false
  else true.

Definition filterVideos (this : DownloadManager) (videos : list PexelsVideo)
  (options : BatchDownloadOptions) : list PexelsVideo :=
  match filter_criteria options with
  | Some criteria => List.filter (keeps this criteria) videos
  | None => videos
  end.

(** [array.slice(0, n)] for an integer [n]: a negative [n] counts from the
    end of the array. *)
Definition slice0 {A} (l : list A) (n : Z) : list A :=
  if 0 <=? n then take (Z.to_nat n) l
  else take (length l - Z.to_nat (- n)) l.

(** [batchDownload], with the tasks run to completion one after the other
    in the order of [videosToDownload], which is the order of the results
    of [Promise.all]. *)
Definition batchDownload (E : Env) (videos : list PexelsVideo) (options : BatchDownloadOptions)
  : M Sys (list DownloadResult) :=
  s <~ get_state ;;
  let filteredVideos := filterVideos (this s) videos options in
  let maxVideos := default 10 (truthy_Z (max_videos options)) in
  let videosToDownload := slice0 filteredVideos maxVideos in
  mapM (fun video =>
          downloadVideo E video
            {| video_id := pv_id video;
               quality := batch_quality options;
               filename := None;
               category := batch_category options |})
       videosToDownload.

(** ** OrganizationManager (organization-manager.ts) *)

(** A rule set: the entries of the object, in the order in which
    [Object.entries] enumerates them. *)
Definition OrganizationScheme : Type := list (string * list string).

Record OrganizationOptions : Type := {
  organization_scheme : option string;
  custom_rules : option OrganizationScheme
}.

Record OrganizationResult : Type := {
  status : Status;
  moved_files : Z;
  categories_created : list string;
  errors : list string
}.

(** [this.organizationSchemes[scheme]], the table set up by the constructor. *)
Definition organizationSchemes (scheme : string) : option OrganizationScheme :=
  if String.eqb scheme "emotion" then
    Some [ ("calm", ["water"; "clouds"; "slow"; "peaceful"; "serene"; "gentle"; "soft"; "quiet"]);
           ("energetic", ["fast"; "bright"; "motion"; "dynamic"; "active"; "vibrant"; "quick"; "rapid"]);
           ("mysterious", ["dark"; "smoke"; "shadow"; "fog"; "night"; "mysterious"; "abstract"; "enigmatic"]);
           ("happy", ["colorful"; "sunny"; "playful"; "light"; "bright"; "cheerful"; "joyful"; "positive"]);
           ("dramatic", ["storm"; "lightning"; "intense"; "powerful"; "dramatic"; "bold"; "striking"]) ]
  else if String.eqb scheme "energy" then
    Some [ ("high", ["fast"; "rapid"; "quick"; "dynamic"; "active"; "intense"; "powerful"; "energetic"]);
           ("medium", ["moderate"; "steady"; "balanced"; "consistent"; "regular"; "normal"]);
           ("low", ["slow"; "calm"; "peaceful"; "gentle"; "soft"; "quiet"; "relaxed"; "serene"]) ]
  else if String.eqb scheme "color" then
    Some [ ("warm", ["red"; "orange"; "yellow"; "warm"; "sunset"; "fire"; "golden"]);
           ("cool", ["blue"; "green"; "purple"; "cool"; "ocean"; "sky"; "ice"]);
           ("neutral", ["black"; "white"; "gray"; "grey"; "monochrome"; "neutral"]);
           ("vibrant", ["colorful"; "bright"; "vivid"; "saturated"; "rainbow"; "neon"]) ]
  else if String.eqb scheme "duration" then
    Some [ ("short", []); ("medium", []); ("long", []) ]
  else None.

Definition calculateCategoryScore (tags : string) (keywords : list string) : Z :=
  fold_left (fun score keyword =>
               if includes tags (toLowerCase keyword) then score + 1 else score)
            keywords 0.

(** One turn of the loop of [categorizeVideo] over the entries of the rule
    set, on the pair ([bestCategory], [bestScore]). *)
Definition best_step (allTags : string) (best : option string * Z)
  (entry : string * list string) : option string * Z :=
  let score := calculateCategoryScore allTags (snd entry) in
  if snd best <? score then (Some (fst entry), score) else best.

Definition categorizeVideo (video : VideoMetadata) (rules : OrganizationScheme)
  (scheme : string) : option string :=
  (* Special handling for duration-based categorization *)
  if String.eqb scheme "duration" then
    let duration := pm_duration (pexels_metadata video) in
    if Qle_bool duration 15 then Some "short"
    else if Qle_bool duration 45 then Some "medium"
    else Some "long"
  else
    (* For other schemes, use tag-based categorization *)
    let tags := pm_tags (pexels_metadata video) in
    let allTags := toLowerCase (join " " tags) in
    (* Find the best matching category *)
    let best := fold_left (best_step allTags) rules (None, 0) in
    (* Only return category if we have a reasonable confidence *)
    if 0 <? snd best then fst best else None.

(** [moveVideoToCategory] returns its boolean together with the record as
    the call leaves it (the source updates the record in place). *)
Definition moveVideoToCategory (E : Env) (video : VideoMetadata) (category : string)
  (downloadPath : string) : M World (bool * VideoMetadata) :=
  try_catch
    (let currentPath := vm_local_path video in
     let categoryDir := path_join downloadPath category in
     let newPath := path_join categoryDir (vm_filename video) in
     (* Skip if already in the correct category *)
     if String.eqb currentPath newPath then ret (false, video)
     else
       (* Ensure category directory exists *)
       ensureDir E categoryDir ;;;
       (* Move the file *)
       fs_move E currentPath newPath ;;;
       (* Update metadata *)
       ret (true, {| vm_id := vm_id video;
                     vm_filename := vm_filename video;
                     vm_local_path := newPath;
                     vm_file_size := vm_file_size video;
                     vm_download_date := vm_download_date video;
                     vm_category := Some category;
                     pexels_metadata := pexels_metadata video |}))
    (fun _ => ret (false, video)).

(** The state of a run of [organizeByCategory]: the [result] object that
    the method builds up, and the world. *)
Record Org : Type := {
  result : OrganizationResult;
  org_world : World
}.

Definition set_result (r : OrganizationResult) (o : Org) : Org :=
  {| result := r; org_world := org_world o |}.
Definition set_org_world (w : World) (o : Org) : Org :=
  {| result := result o; org_world := w |}.

Definition in_org_world {A} (m : M World A) : M Org A := zoom org_world set_org_world m.

(** [result.moved_files++] followed by the conditional push of [category]. *)
Definition count_move (category : string) (r : OrganizationResult) : OrganizationResult :=
  {| status := status r;
     moved_files := moved_files r + 1;
     categories_created :=
       if existsb (String.eqb category) (categories_created r)
       then categories_created r
       else (categories_created r ++ [category])%list;
     errors := errors r |}.

Definition push_error (message : string) (r : OrganizationResult) : OrganizationResult :=
  {| status := status r; moved_files := moved_files r;
     categories_created := categories_created r;
     errors := (errors r ++ [message])%list |}.

Definition set_failed (r : OrganizationResult) : OrganizationResult :=
  {| status := failed; moved_files := moved_files r;
     categories_created := categories_created r; errors := errors r |}.

(** The body of the loop [for (const video of metadata)]; the value is the
    record as the turn leaves it. *)
Definition organize_video (E : Env) (rules : OrganizationScheme) (scheme downloadPath : string)
  (video : VideoMetadata) : M Org VideoMetadata :=
  try_catch
    (category <~ ret (categorizeVideo video rules scheme) ;;
     match truthy_string category with
     | Some category =>
         moved <~ in_org_world (moveVideoToCategory E video category downloadPath) ;;
         if fst moved : bool
         then modify (fun o => set_result (count_move category (result o)) o) ;;; ret (snd moved)
         else ret (snd moved)
     | None => ret video
     end)
    (fun message =>
       modify (fun o => set_result
                          (push_error ("Video " +:+ pretty (vm_id video) +:+ ": " +:+ message)
                                      (result o)) o) ;;;
       ret video).

(** [organizeByCategory]; [downloadPath] is the value of
    [process.env.DOWNLOAD_PATH || './downloads'], whose [metadata.json] is
    the ledger of the world. *)
Definition organizeByCategory (E : Env) (downloadPath : string) (options : OrganizationOptions)
  (w : World) : OrganizationResult * World :=
  let run : M Org unit :=
    try_catch
      ((* Get the organization scheme *)
       let scheme := default "emotion" (truthy_string (organization_scheme options)) in
       let rules := if String.eqb scheme "custom" then custom_rules options
                    else organizationSchemes scheme in
       match rules with
       | None => throw ("Invalid organization scheme: " +:+ scheme)
       | Some rules =>
           (* Load video metadata *)
           present <~ in_org_world pathExists_metadataFile ;;
           if negb present then throw "No downloaded videos found"
           else
             metadata <~ in_org_world readJson_metadataFile ;;
             (* Process each video *)
             metadata <~ mapM (organize_video E rules scheme downloadPath) metadata ;;
             (* Update metadata file *)
             in_org_world (writeJson_metadataFile E metadata)
       end)
      (fun message =>
         modify (fun o => set_result (push_error message (set_failed (result o))) o))
  in
  let o := snd (run {| result := {| status := success; moved_files := 0;
                                    categories_created := []; errors := [] |};
                       org_world := w |}) in
  (result o, org_world o).

(** ** CacheManager (cache-manager.ts) *)

Module CacheManager.
Section WithPayload.
Context {T : Type}.

Record CacheEntry : Type := {
  data : T;
  timestamp : Z;
  expiresAt : Z
}.

(** [duration] is the cache duration in seconds. *)
Record t : Type := {
  cache : gmap string CacheEntry;
  duration : Z
}.

Definition with_cache (m : gmap string CacheEntry) (c : t) : t :=
  {| cache := m; duration := duration c |}.

(** [new CacheManager(duration)] *)
Definition new (d : Z) : t := {| cache := ∅; duration := d |}.

(** [set(key, data, customDuration)] when [Date.now()] is [now]. *)
Definition set (key : string) (value : T) (customDuration : option Z) (now : Z) (c : t) : t :=
  let d := default (duration c) (truthy_Z customDuration) in
  let entry := {| data := value; timestamp := now; expiresAt := now + d * 1000 |} in
  with_cache (<[key := entry]> (cache c)) c.

(** [get(key)] when [Date.now()] is [now]; [None] is [null]. *)
Definition get (key : string) (now : Z) (c : t) : option T * t :=
  match cache c !! key with
  | None => (None, c)
  | Some entry =>
      if expiresAt entry <? now
      then (None, with_cache (base.delete key (cache c)) c)
      else (Some (data entry), c)
  end.

Definition has (key : string) (now : Z) (c : t) : bool * t :=
  match cache c !! key with
  | None => (false, c)
  | Some entry =>
      if expiresAt entry <? now
      then (false, with_cache (base.delete key (cache c)) c)
      else (true, c)
  end.

Definition delete (key : string) (c : t) : bool * t :=
  (bool_decide (is_Some (cache c !! key)), with_cache (base.delete key (cache c)) c).

Definition clear (c : t) : t := with_cache ∅ c.

(** The periodic sweep. *)
Definition cleanup (now : Z) (c : t) : t :=
  with_cache (filter (fun kv => ¬ (expiresAt (snd kv) < now)) (cache c)) c.
(** What [getEntryInfo] returns; the optional fields are absent when the
    key is. *)
Record EntryInfo : Type := {
  info_exists : bool;
  info_timestamp : option Z;
  info_expiresAt : option Z;
  info_ttl : option Z
}.

(** [getEntryInfo(key)] when [Date.now()] is [now]. *)
Definition getEntryInfo (key : string) (now : Z) (c : t) : EntryInfo :=
  match cache c !! key with
  | None => {| info_exists := false; info_timestamp := None; info_expiresAt := None;
               info_ttl := None |}
  | Some entry =>
      {| info_exists := true;
         info_timestamp := Some (timestamp entry);
         info_expiresAt := Some (expiresAt entry);
         info_ttl := Some (Z.max 0 (expiresAt entry - now)) |}
  end.

(** The [size] field of [getStats]. *)
Definition getStats_size (c : t) : nat := size (cache c).
End WithPayload.
Arguments CacheEntry : clear implicits.
Arguments t : clear implicits.
End CacheManager.

(** ** Read-only operations on the ledger *)

Record ListOptions : Type := {
  list_category : option string;
  sort_by : option string;
  limit : option Z
}.

(** The comparator of [listDownloaded] for the sort key [sortBy], by the
    sign of the number it returns: [Lt] for negative, [Eq] for zero, [Gt]
    for positive. [localeCompare] stands for [String.prototype.localeCompare]. *)
Definition list_compare (localeCompare : string -> string -> comparison) (sortBy : string)
  (a b : VideoMetadata) : comparison :=
  if String.eqb sortBy "date" then vm_download_date b ?= vm_download_date a
  else if String.eqb sortBy "size" then vm_file_size b ?= vm_file_size a
  else if String.eqb sortBy "duration" then
    (pm_duration (pexels_metadata b) ?= pm_duration (pexels_metadata a))%Q
  else if String.eqb sortBy "name" then localeCompare (vm_filename a) (vm_filename b)
  else Eq.

(** [Array.prototype.sort] is stable; for a comparator that is a consistent
    order its result is the stable sorted arrangement, built here by
    insertion from the right: an element goes in front of the first element
    that the comparator does not put before it. *)
Fixpoint sort_insert {A : Type} (cmp : A -> A -> comparison) (x : A) (l : list A) : list A :=
  match l with
  | [] => [x]
  | y :: l' =>
      match cmp x y with
      | Gt => y :: sort_insert cmp x l'
      | _ => x :: l
      end
  end.

Definition Array_sort {A : Type} (cmp : A -> A -> comparison) (l : list A) : list A :=
  fold_right (sort_insert cmp) [] l.

(** [video.category === options.category] for a category that is given. *)
Definition in_category (category : string) (video : VideoMetadata) : bool :=
  match vm_category video with
  | Some c => String.eqb c category
  | None => false
  end.

Definition listDownloaded (localeCompare : string -> string -> comparison)
  (options : ListOptions) : M World (list VideoMetadata) :=
  try_catch
    (present <~ pathExists_metadataFile ;;
     if negb present then ret []
     else
       metadata <~ readJson_metadataFile ;;
       (* Filter by category if specified *)
       let metadata := match truthy_string (list_category options) with
                       | Some category => List.filter (in_category category) metadata
                       | None => metadata
                       end in
       (* Sort by specified criteria *)
       let sortBy := default "date" (truthy_string (sort_by options)) in
       let metadata := Array_sort (list_compare localeCompare sortBy) metadata in
       (* Limit results *)
       let limit := default 50 (truthy_Z (limit options)) in
       ret (slice0 metadata limit))
    (fun _ => ret []).



(** ** The API client *)

(** A JavaScript number that is an integer or, as [None], [NaN]: what
    [parseInt] makes of a header. A comparison with [NaN] is false and
    arithmetic on it gives [NaN]. *)
Definition JSNumber : Type := option Z.

Definition js_le (a b : JSNumber) : bool :=
  match a, b with
  | Some x, Some y => x <=? y
  | _, _ => false
  end.

Definition js_lt (a b : JSNumber) : bool :=
  match a, b with
  | Some x, Some y => x <? y
  | _, _ => false
  end.

(** [Math.ceil(x / d)] for integers [x] and [d > 0]. *)
Definition Math_ceil_div (x d : Z) : Z := - ((- x) / d).

(** The ways an axios request fails, as [handleError] tells them apart:
    a response with a status outside 2xx, no response, or an error raised
    before the request was sent. *)
Inductive AxiosError : Type :=
| with_response (status : Z) (statusText : string)
| with_request
| without_request (message : string).

(** The two headers the response interceptor reads: [None] when the header
    is absent or empty, else what [parseInt] makes of it. *)
Record Headers : Type := {
  x_ratelimit_remaining : option JSNumber;
  x_ratelimit_reset : option JSNumber
}.

Inductive Response : Type :=
| fulfilled (headers : Headers) (data : PexelsVideo)
| rejected (error : AxiosError).

(** The Pexels API as seen from the client: the outcome of
    [GET /videos/<id>] and the milliseconds it takes. A 2xx response
    carries a video object. *)
Record Api : Type := {
  api_video : Z -> Response;
  api_latency : Z -> Z
}.

Record RateLimitInfo : Type := {
  rl_remaining : JSNumber;
  rl_reset_in : JSNumber
}.

(** What [getVideoDetails] returns: [status], and [data] with its
    [rate_limit] field apart. *)
Record VideoDetails : Type := {
  vd_status : string;
  vd_data : PexelsVideo;
  vd_rate_limit : RateLimitInfo
}.

Module PexelsClient.

Record RateLimit : Type := {
  remaining : JSNumber;
  resetTime : JSNumber
}.

(** The client: its rate-limit state and, as a log that the code does not
    keep, the video ids requested from the API so far, latest first. *)
Record t : Type := {
  rateLimit : RateLimit;
  sent : list Z
}.

(** [new PexelsClient(...)] when [Date.now()] is [now]. *)
Definition new (now : Z) : t :=
  {| rateLimit := {| remaining := Some 200; resetTime := Some (now + 3600000) |};
     sent := [] |}.

(** [checkRateLimit()]; [now1] and [now2] are its two readings of
    [Date.now()], in the condition and in the message. *)
Definition checkRateLimit (now1 now2 : Z) (rateLimit : RateLimit) : Outcome unit :=
  if js_le (remaining rateLimit) (Some 0) && js_lt (Some now1) (resetTime rateLimit) then
    match resetTime rateLimit with
    | Some resetTime =>
        let waitTime := Math_ceil_div (resetTime - now2) 1000 in
        Throw ("Rate limit exceeded. Reset in " +:+ pretty waitTime +:+ " seconds")
    | None => Return tt
    end
  else Return tt.

(** The response interceptor, on a 2xx response. *)
Definition intercept (headers : Headers) (rateLimit : RateLimit) : RateLimit :=
  let rateLimit :=
    match x_ratelimit_remaining headers with
    | Some remaining => {| remaining := remaining; resetTime := resetTime rateLimit |}
    | None => rateLimit
    end in
  match x_ratelimit_reset headers with
  | Some reset =>
      {| remaining := remaining rateLimit; resetTime := option_map (fun r => r * 1000) reset |}
  | None => rateLimit
  end.

(** The message of the error that [handleError] returns. *)
Definition handleError (error : AxiosError) : string :=
  match error with
  | with_response status statusText =>
      if status =? 401 then "INVALID_API_KEY: Invalid or missing Pexels API key"
      else if status =? 429 then "RATE_LIMIT_EXCEEDED: Pexels API rate limit exceeded"
      else if status =? 404 then "VIDEO_NOT_FOUND: Requested video not found"
      else "API_ERROR: " +:+ pretty status +:+ " " +:+ statusText
  | with_request => "NETWORK_ERROR: Failed to connect to Pexels API"
  | without_request message => "UNKNOWN_ERROR: " +:+ message
  end.

(** [getVideoDetails(videoId)] on the client and the clock. The only
    statement of its [try] block that throws is the request, whose error
    goes through [handleError]; the error of [checkRateLimit], raised
    before the block, does not. *)
Definition getVideoDetails (A : Api) (videoId : Z) : M (t * Z) VideoDetails :=
  fun '(client, now) =>
    match checkRateLimit now now (rateLimit client) with
    | Throw msg => (Throw msg, (client, now))
    | Return _ =>
        let now := now + api_latency A videoId in
        match api_video A videoId with
        | rejected error =>
            (Throw (handleError error),
             ({| rateLimit := rateLimit client; sent := videoId :: sent client |}, now))
        | fulfilled headers data =>
            let rateLimit := intercept headers (rateLimit client) in
            (Return {| vd_status := "success";
                       vd_data := data;
                       vd_rate_limit :=
                         {| rl_remaining := remaining rateLimit;
                            rl_reset_in :=
                              option_map (fun r => Math_ceil_div (r - now) 1000)
                                         (resetTime rateLimit) |} |},
             ({| rateLimit := rateLimit; sent := videoId :: sent client |}, now))
        end
    end.

End PexelsClient.

(** ** The usage tracker *)

Module UsageTracker.

Inductive UsageType : Type := api_call | download | batch_download.

Record Details : Type := {
  action : option string;
  count : option Z;
  size : option Z
}.

Record UsageData : Type := {
  timestamp : Z;
  type : UsageType;
  details : Details
}.

(** The tracker is its array [usageData]. The copy in [usage.json] is
    written in the background, its failures are swallowed and it is read
    only when the process starts. *)
Definition t : Type := list UsageData.

Definition is_type (ty : UsageType) (usage : UsageData) : bool :=
  match type usage, ty with
  | api_call, api_call | download, download | batch_download, batch_download => true
  | _, _ => false
  end.

(** [recordApiCall(action)] when [Date.now()] is [now]. *)
Definition recordApiCall (action : string) (now : Z) (usageData : t) : t :=
  (usageData ++ [ {| timestamp := now; type := api_call;
                     details := {| action := Some action; count := None; size := None |} |} ])%list.

Definition recordDownload (size : option Z) (now : Z) (usageData : t) : t :=
  (usageData ++ [ {| timestamp := now; type := download;
                     details := {| action := None; count := None; size := size |} |} ])%list.

Definition recordBatchDownload (count : Z) (now : Z) (usageData : t) : t :=
  (usageData ++ [ {| timestamp := now; type := batch_download;
                     details := {| action := None; count := Some count; size := None |} |} ])%list.

Definition getPeriodMs (period : string) : Z :=
  if String.eqb period "hour" then 3600000
  else if String.eqb period "day" then 86400000
  else if String.eqb period "month" then 2592000000
  else 3600000.

Record StorageStats : Type := {
  total_files : nat;
  total_size_bytes : Z;
  total_size_mb : Q
}.

Definition no_storage : StorageStats :=
  {| total_files := 0; total_size_bytes := 0; total_size_mb := 0 |}.

(** [calculateStorageStats()]: an unreadable ledger throws inside the
    [try] and gives the same zeros as a missing one. *)
Definition calculateStorageStats (w : World) : StorageStats :=
  match metadataFile w with
  | Missing => no_storage
  | Corrupt => no_storage
  | Json metadata =>
      let totalSize :=
        fold_left (fun sum video => sum + default 0 (truthy_Z (Some (vm_file_size video))))
                  metadata 0 in
      {| total_files := length metadata;
         total_size_bytes := totalSize;
         total_size_mb := inject_Z (Math_round (inject_Z totalSize / inject_Z (1024 * 1024) * 100)) / 100 |}
  end.

(** [action === name] for the [action] of a record. *)
Definition has_action (name : string) (call : UsageData) : bool :=
  match action (details call) with
  | Some a => String.eqb a name
  | None => false
  end.

(** [Math.min(...l)] and [Math.max(...l)] of a list that is not empty. *)
Definition Math_min (l : list Z) : Z :=
  match l with
  | [] => 0
  | x :: l' => fold_left Z.min l' x
  end.

Definition Math_max (l : list Z) : Z :=
  match l with
  | [] => 0
  | x :: l' => fold_left Z.max l' x
  end.

(** [UsageStats], with its groups flattened; the three dates are the
    millisecond values that the code formats with [toISOString]. *)
Record UsageStats : Type := {
  period : string;
  api_calls_search_videos : nat;
  api_calls_get_video_details : nat;
  api_calls_total : nat;
  downloads_individual : nat;
  downloads_batch : Z;
  downloads_total : Z;
  storage : StorageStats;
  rate_limits_current_remaining : Z;
  rate_limits_last_reset : Z;
  rate_limits_hits_per_hour : nat;
  timestamps_first_call : Z;
  timestamps_last_call : Z;
  timestamps_period_start : Z
}.

(** [getStats(period)] when [Date.now()] is [now]; an absent [period] is
    ['hour']. *)
Definition getStats (period : option string) (now : Z) (w : World) (usageData : t)
  : UsageStats :=
  let period := default "hour" period in
  let periodMs := getPeriodMs period in
  let periodStart := now - periodMs in
  (* Filter data for the specified period *)
  let periodData := List.filter (fun usage => periodStart <=? timestamp usage) usageData in
  (* Calculate API calls *)
  let apiCalls := List.filter (is_type api_call) periodData in
  let searchCalls := length (List.filter (has_action "search_videos") apiCalls) in
  let detailsCalls := length (List.filter (has_action "get_video_details") apiCalls) in
  (* Calculate downloads *)
  let downloads := length (List.filter (is_type download) periodData) in
  let batchDownloads := List.filter (is_type batch_download) periodData in
  let batchCount :=
    fold_left (fun sum batch => sum + default 0 (truthy_Z (count (details batch))))
              batchDownloads 0 in
  (* Calculate storage stats *)
  let storageStats := calculateStorageStats w in
  (* Calculate rate limit stats *)
  let hourlyData := List.filter (fun usage => now - 3600000 <=? timestamp usage) usageData in
  let hitsPerHour := length (List.filter (is_type api_call) hourlyData) in
  (* Find timestamps *)
  let allTimestamps := map timestamp usageData in
  let firstCall := if (0 <? length allTimestamps)%nat then Math_min allTimestamps else now in
  let lastCall := if (0 <? length allTimestamps)%nat then Math_max allTimestamps else now in
  {| period := period;
     api_calls_search_videos := searchCalls;
     api_calls_get_video_details := detailsCalls;
     api_calls_total := length apiCalls;
     downloads_individual := downloads;
     downloads_batch := batchCount;
     downloads_total := Z.of_nat downloads + batchCount;
     storage := storageStats;
     rate_limits_current_remaining := Z.max 0 (200 - Z.of_nat hitsPerHour);
     rate_limits_last_reset := Math_ceil_div now 3600000 * 3600000;
     rate_limits_hits_per_hour := hitsPerHour;
     timestamps_first_call := firstCall;
     timestamps_last_call := lastCall;
     timestamps_period_start := periodStart |}.

(** [cleanup()] when [Date.now()] is [now]. *)
Definition cleanup (now : Z) (usageData : t) : t :=
  let cutoff := now - 2592000000 in
  List.filter (fun usage => cutoff <? timestamp usage) usageData.

End UsageTracker.

(** ** The server *)

(** The components of [PexelsMCPServer] that the tool handlers use. The
    cache is shown with the entries of [handleGetVideoDetails]; those of
    [handleSearchVideos] have keys that start with [search_] and are never
    looked up here. *)
Record Server : Type := {
  pexelsClient : PexelsClient.t;
  cacheManager : CacheManager.t VideoDetails;
  usageTracker : UsageTracker.t;
  downloadManager : Sys
}.

Definition set_pexelsClient (c : PexelsClient.t) (s : Server) : Server :=
  {| pexelsClient := c; cacheManager := cacheManager s; usageTracker := usageTracker s;
     downloadManager := downloadManager s |}.
Definition set_cacheManager (c : CacheManager.t VideoDetails) (s : Server) : Server :=
  {| pexelsClient := pexelsClient s; cacheManager := c; usageTracker := usageTracker s;
     downloadManager := downloadManager s |}.
Definition set_usageTracker (u : UsageTracker.t) (s : Server) : Server :=
  {| pexelsClient := pexelsClient s; cacheManager := cacheManager s; usageTracker := u;
     downloadManager := downloadManager s |}.
Definition set_downloadManager (d : Sys) (s : Server) : Server :=
  {| pexelsClient := pexelsClient s; cacheManager := cacheManager s;
     usageTracker := usageTracker s; downloadManager := d |}.

Definition server_now (s : Server) : Z := clock (world (downloadManager s)).

(** [this.pexelsClient.getVideoDetails(videoId)] *)
Definition client_getVideoDetails (A : Api) (videoId : Z) : M Server VideoDetails :=
  zoom (fun s => (pexelsClient s, server_now s))
       (fun '(client, now) s =>
          set_downloadManager
            (set_world (set_clock now (world (downloadManager s))) (downloadManager s))
            (set_pexelsClient client s))
       (PexelsClient.getVideoDetails A videoId).

(** [this.cacheManager.get(key)] and [this.cacheManager.set(key, data)] *)
Definition cache_get (key : string) : M Server (option VideoDetails) :=
  fun s => let '(v, c) := CacheManager.get key (server_now s) (cacheManager s) in
           (Return v, set_cacheManager c s).

Definition cache_set (key : string) (data : VideoDetails) : M Server unit :=
  modify (fun s => set_cacheManager
                     (CacheManager.set key data None (server_now s) (cacheManager s)) s).

Definition usage_recordApiCall (action : string) : M Server unit :=
  modify (fun s => set_usageTracker
                     (UsageTracker.recordApiCall action (server_now s) (usageTracker s)) s).


(** The handlers return [JSON.stringify] of a value as the text of their
    reply; they are shown here with that value as their result. *)
Definition handleGetVideoDetails (A : Api) (video_id : Z) : M Server VideoDetails :=
  let cacheKey := "video_" +:+ pretty video_id in
  cached <~ cache_get cacheKey ;;
  match cached with
  | Some cached => ret cached
  | None =>
      details <~ client_getVideoDetails A video_id ;;
      cache_set cacheKey details ;;;
      usage_recordApiCall "get_video_details" ;;;
      ret details
  end.


Definition handleGetUsageStats (period : option string) : M Server UsageTracker.UsageStats :=
  fun s => (Return (UsageTracker.getStats period (server_now s)
                      (world (downloadManager s)) (usageTracker s)), s).

(** * Vocabulary of the properties *)

(** The number of keywords whose lower-case form occurs in [allTags]. *)
Definition keyword_hits (allTags : string) (keywords : list string) : Z :=
  Z.of_nat (length (List.filter (fun k => includes allTags (toLowerCase k)) keywords)).

(** The records of the ledger; an absent or unreadable file has none. *)
Definition ledger_records (w : World) : list VideoMetadata :=
  match metadataFile w with
  | Json records => records
  | _ => []
  end.

Definition ledger_ids (w : World) : list Z := vm_id <$> ledger_records w.

(** At most one record per asset id. *)
Definition one_record_per_id (w : World) : Prop := NoDup (ledger_ids w).

(** The in-memory set knows every id of the ledger: what [loadMetadata]
    establishes and every method of the manager maintains. *)
Definition mirrors (s : Sys) : Prop :=
  forall id, id ∈ ledger_ids (world s) -> id ∈ downloadedVideos (this s).

(** The states of a manager that was constructed over some world (its
    directory was created and its ledger loaded) and has since run fetches,
    batches and runs of the organization manager, each under an environment
    of its own. *)
Inductive reachable : Sys -> Prop :=
| reachable_new (E : Env) (path : string) (n : nat) (w : World) :
    env_ensureDir E path = Return tt ->
    reachable (new_DownloadManager E path n w)
| reachable_downloadVideo (E : Env) (videoDetails : PexelsVideo) (options : DownloadOptions)
    (s : Sys) :
    reachable s -> reachable (snd (downloadVideo E videoDetails options s))
| reachable_batchDownload (E : Env) (videos : list PexelsVideo)
    (options : BatchDownloadOptions) (s : Sys) :
    reachable s -> reachable (snd (batchDownload E videos options s))
| reachable_organizeByCategory (E : Env) (downloadPath : string)
    (options : OrganizationOptions) (s : Sys) :
    reachable s ->
    reachable (set_world (snd (organizeByCategory E downloadPath options (world s))) s).

(** The list that [saveMetadata] writes. *)
Definition replaced (videoMetadata : VideoMetadata) (records : list VideoMetadata)
  : list VideoMetadata :=
  (List.filter (fun video => negb (vm_id video =? vm_id videoMetadata)) records
   ++ [videoMetadata])%list.

(** The state after a [saveMetadata] that went through. *)
Definition recorded (videoMetadata : VideoMetadata) (s : Sys) : Sys :=
  {| this := set_downloadedVideos ({[vm_id videoMetadata]} ∪ downloadedVideos (this s)) (this s);
     world := set_metadataFile (Json (replaced videoMetadata (ledger_records (world s))))
                               (world s) |}.

Definition save_succeeds (E : Env) (videoMetadata : VideoMetadata) (s : Sys) : bool :=
  match metadataFile (world s) with
  | Corrupt => false
  | _ => match env_writeJson E (replaced videoMetadata (ledger_records (world s))) with
         | Return _ => true
         | Throw _ => false
         end
  end.

(** The directory a fetch writes to. *)
Definition category_dir (this : DownloadManager) (options : DownloadOptions) : string :=
  match truthy_string (category options) with
  | Some c => path_join (downloadPath this) c
  | None => downloadPath this
  end.

(** The candidates of a batch: filtered first, cut to [max_videos] after. *)
Definition videosToDownload (this : DownloadManager) (videos : list PexelsVideo)
  (options : BatchDownloadOptions) : list PexelsVideo :=
  slice0 (filterVideos this videos options) (default 10 (truthy_Z (max_videos options))).


Definition respects {S A : Type} (R : relation S) (m : M S A) : Prop :=
  forall s, R s (snd (m s)).

(** What a batch may do to the state it starts from: the set only grows,
    every new transfer is for an id that the set did not hold at the start,
    and both invariants of the ledger are kept. *)
Definition batch_rel (s s' : Sys) : Prop :=
  downloadedVideos (this s) ⊆ downloadedVideos (this s') /\
  (exists new, transfers (world s') = (new ++ transfers (world s))%list /\
               forall x, x ∈ new -> fst x ∉ downloadedVideos (this s)) /\
  (one_record_per_id (world s) -> one_record_per_id (world s')) /\
  (mirrors s -> mirrors s').

(** What the turns of the loop leave alone: the ledger file, the log of
    transfers, and the [status] and [errors] of the result. *)
Definition org_rel (o o' : Org) : Prop :=
  metadataFile (org_world o') = metadataFile (org_world o) /\
  transfers (org_world o') = transfers (org_world o) /\
  status (result o') = status (result o) /\
  errors (result o') = errors (result o).

(** Every character of [s] satisfies [p]. *)
Fixpoint string_all (p : ascii -> bool) (s : string) : bool :=
  match s with
  | EmptyString => true
  | String c s' => p c && string_all p s'
  end.

(** The characters a-z, 0-9, underscore and hyphen. *)
Definition safe_char (c : ascii) : bool :=
  let n := nat_of_ascii c in
  ((48 <=? n) && (n <=? 57) || (97 <=? n) && (n <=? 122) || (n =? 95) || (n =? 45))%nat.

(** The scheme and the rule set a run of [organizeByCategory] works with. *)
Definition chosen_scheme (options : OrganizationOptions) : string :=
  default "emotion" (truthy_string (organization_scheme options)).

Definition chosen_rules (options : OrganizationOptions) : option OrganizationScheme :=
  if String.eqb (chosen_scheme options) "custom" then custom_rules options
  else organizationSchemes (chosen_scheme options).

(** The result a run starts from. *)
Definition fresh_result : OrganizationResult :=
  {| status := success; moved_files := 0; categories_created := []; errors := [] |}.

(** Two records of the same asset: they differ at most in their path and
    their category. *)
Definition same_asset (v v' : VideoMetadata) : Prop :=
  vm_id v' = vm_id v /\
  vm_filename v' = vm_filename v /\
  vm_file_size v' = vm_file_size v /\
  vm_download_date v' = vm_download_date v /\
  pexels_metadata v' = pexels_metadata v.

(** How the counters of the result may change in the loop of
    [organizeByCategory]. *)
Definition count_rel (o o' : Org) : Prop :=
  moved_files (result o) <= moved_files (result o') /\
  Z.of_nat (length (categories_created (result o')))
  - Z.of_nat (length (categories_created (result o)))
  <= moved_files (result o') - moved_files (result o) /\
  (NoDup (categories_created (result o)) -> NoDup (categories_created (result o'))).

(** What the loop of [organizeByCategory] does not change on disk: the
    number of files. *)
Definition files_rel (o o' : Org) : Prop :=
  size (disk (org_world o')) = size (disk (org_world o)).


(** The records of the ledger that [listDownloaded] sorts. *)
Definition listed_records (options : ListOptions) (w : World) : list VideoMetadata :=
  match truthy_string (list_category options) with
  | Some category => List.filter (in_category category) (ledger_records w)
  | None => ledger_records w
  end.

(** [a] may stand before [b] in the result of a sort with [cmp]. *)
Definition may_precede {A : Type} (cmp : A -> A -> comparison) (a b : A) : Prop :=
  cmp a b <> Gt.

(** A comparator that is a consistent order: of two elements one may
    precede the other, and "may precede" is transitive. *)
Definition consistent {A : Type} (cmp : A -> A -> comparison) : Prop :=
  (forall a b, cmp a b = Gt -> cmp b a <> Gt) /\
  (forall a b c, cmp a b <> Gt -> cmp b c <> Gt -> cmp a c <> Gt).

(** * Sample data *)

Definition tagged_video (id : Z) (tags : list string) (duration : Q) : VideoMetadata :=
  {| vm_id := id; vm_filename := "clip.mp4"; vm_local_path := "./downloads/clip.mp4";
     vm_file_size := 1000; vm_download_date := 0; vm_category := None;
     pexels_metadata := {| pm_width := 1920; pm_height := 1080; pm_duration := duration;
                           pm_url := "https://www.pexels.com/video/1/"; pm_tags := tags;
                           pm_user := {| user_id := 1; user_name := "a"; user_url := "u" |} |} |}.

Definition rendition (q link : string) : VideoFile :=
  {| vf_id := 1; vf_quality := q; vf_file_type := "video/mp4";
     vf_width := 1920; vf_height := 1080; vf_fps := 30; vf_link := link |}.

Definition asset (id : Z) (files : list VideoFile) : PexelsVideo :=
  {| pv_id := id; pv_width := 1920; pv_height := 1080; pv_duration := 12;
     pv_url := "https://www.pexels.com/video/"; pv_image := ""; pv_avg_color := "";
     pv_user := {| user_id := 1; user_name := "a"; user_url := "u" |};
     video_files := files; pv_tags := ["ocean"; "waves"] |}.

Definition fetch_of (id : Z) (q : option Quality) : DownloadOptions :=
  {| video_id := id; quality := q; filename := Some "clip.mp4"; category := None |}.

Definition quiet_env : Env :=
  {| env_ensureDir := fun _ => Return tt;
     env_get := fun _ => Return 2048;
     env_latency := fun _ => 1500;
     env_write := fun _ => Return tt;
     env_writeJson := fun _ => Return tt;
     env_move := fun _ _ => Return tt |}.

Definition empty_world : World :=
  {| metadataFile := Missing; disk := ∅; dirs := ∅; transfers := []; clock := 0 |}.

(** A manager whose ledger has the single record [tagged_video id tags 10]. *)
Definition manager_with (id : Z) (tags : list string) : Sys :=
  {| this := {| downloadPath := "./downloads"; maxConcurrent := 3;
                downloadedVideos := {[id]} |};
     world := set_metadataFile (Json [tagged_video id tags 10]) empty_world |}.

(** A ledger record of a given id, size and category. *)
Definition sized_video (id size : Z) (category : option string) : VideoMetadata :=
  {| vm_id := id; vm_filename := "clip.mp4"; vm_local_path := "./downloads/clip.mp4";
     vm_file_size := size; vm_download_date := id; vm_category := category;
     pexels_metadata := {| pm_width := 1920; pm_height := 1080; pm_duration := 10;
                           pm_url := ""; pm_tags := [];
                           pm_user := {| user_id := 1; user_name := "a"; user_url := "u" |} |} |}.

(** An API that answers every request with [r], after 120 ms. *)
Definition api_of (r : Response) : Api :=
  {| api_video := fun _ => r; api_latency := fun _ => 120 |}.

Definition quota_headers (remaining reset : Z) : Headers :=
  {| x_ratelimit_remaining := Some (Some remaining);
     x_ratelimit_reset := Some (Some reset) |}.

(** A server that has just started, with a cache lifetime of [duration]
    seconds. *)
Definition new_server (duration : Z) : Server :=
  {| pexelsClient := PexelsClient.new 0;
     cacheManager := CacheManager.new duration;
     usageTracker := [];
     downloadManager := new_DownloadManager quiet_env "./downloads" 3 empty_world |}.

(** The server [s] when the clock shows [now]. *)
Definition at_time (now : Z) (s : Server) : Server :=
  set_downloadManager
    (set_world (set_clock now (world (downloadManager s))) (downloadManager s)) s.

(** * Properties *)

(** ** Categorization *)

Lemma calculateCategoryScore_from (allTags : string) (keywords : list string) (score : Z) :
  fold_left (fun score keyword =>
               if includes allTags (toLowerCase keyword) then score + 1 else score)
            keywords score
  = score + keyword_hits allTags keywords.
Proof.
  revert score. induction keywords as [|k ks IH]; intros score.
  - unfold keyword_hits. simpl. lia.
  - cbn [fold_left]. rewrite IH. unfold keyword_hits. cbn [List.filter].
    destruct (includes allTags (toLowerCase k)); cbn [length]; lia.
Qed.

Lemma calculateCategoryScore_hits (allTags : string) (keywords : list string) :
  calculateCategoryScore allTags keywords = keyword_hits allTags keywords.
Proof. unfold calculateCategoryScore. now rewrite calculateCategoryScore_from. Qed.

Lemma keyword_hits_nonneg (allTags : string) (keywords : list string) :
  0 <= keyword_hits allTags keywords.
Proof. unfold keyword_hits. lia. Qed.

(** Entries that do not beat the running best leave it alone. *)
Lemma fold_best_keep (allTags : string) (rules : OrganizationScheme) (best : option string * Z) :
  (forall entry, In entry rules -> keyword_hits allTags (snd entry) <= snd best) ->
  fold_left (best_step allTags) rules best = best.
Proof.
  revert best. induction rules as [|e rules IH]; intros best Hle; [reflexivity|].
  cbn [fold_left]. unfold best_step at 2. rewrite calculateCategoryScore_hits.
  assert (He : keyword_hits allTags (snd e) <= snd best) by (apply Hle; now left).
  destruct (Z.ltb_spec (snd best) (keyword_hits allTags (snd e))); [lia|].
  apply IH. intros entry Hin. apply Hle. now right.
Qed.

(** The loop ends on the first entry whose score is above the start value,
    above every score before it and not below any score after it. *)
Lemma fold_best_first_max (allTags : string) (pre post : OrganizationScheme)
  (c : string) (kws : list string) (best : option string * Z) :
  snd best < keyword_hits allTags kws ->
  (forall entry, In entry pre -> keyword_hits allTags (snd entry) < keyword_hits allTags kws) ->
  (forall entry, In entry post -> keyword_hits allTags (snd entry) <= keyword_hits allTags kws) ->
  fold_left (best_step allTags) (pre ++ (c, kws) :: post)%list best
  = (Some c, keyword_hits allTags kws).
Proof.
  revert best. induction pre as [|e pre IH]; intros best Hbest Hpre Hpost.
  - cbn [app fold_left]. unfold best_step at 2. cbn [fst snd].
    rewrite calculateCategoryScore_hits.
    destruct (Z.ltb_spec (snd best) (keyword_hits allTags kws)); [|lia].
    now apply fold_best_keep.
  - cbn [app fold_left]. apply IH; [|intros; apply Hpre; now right|exact Hpost].
    unfold best_step. rewrite calculateCategoryScore_hits.
    assert (keyword_hits allTags (snd e) < keyword_hits allTags kws) by (apply Hpre; now left).
    destruct (Z.ltb_spec (snd best) (keyword_hits allTags (snd e))); cbn [snd]; lia.
Qed.

Lemma categorizeVideo_tags (video : VideoMetadata) (rules : OrganizationScheme) (scheme : string) :
  scheme <> "duration" ->
  categorizeVideo video rules scheme
  = let best := fold_left (best_step (toLowerCase (join " " (pm_tags (pexels_metadata video)))))
                          rules (None, 0) in
    if 0 <? snd best then fst best else None.
Proof.
  intros Hs. unfold categorizeVideo.
  destruct (String.eqb_spec scheme "duration"); [contradiction|reflexivity].
Qed.

(** A video without a category costs [organize_video] nothing. *)
Lemma organize_video_uncategorized (E : Env) (rules : OrganizationScheme)
  (scheme downloadPath : string) (video : VideoMetadata) (o : Org) :
  categorizeVideo video rules scheme = None ->
  organize_video E rules scheme downloadPath video o = (Return video, o).
Proof.
  intros Hc. unfold organize_video, try_catch, bind, ret. rewrite Hc. reflexivity.
Qed.

(** C4, as it is written, at a custom rule set with an upper-case keyword:
    the keyword ["WATER"] does not occur in the lower-cased tags ["water"],
    so every count of the claim is zero and the claim leaves the asset
    uncategorized; [categorizeVideo] folds the keyword too and assigns
    ["sea"]. *)
Lemma C4_counterexample :
  let video := tagged_video 1 ["Water"] 10 in
  let rules := [("sea", ["WATER"])] in
  let allTags := toLowerCase (join " " (pm_tags (pexels_metadata video))) in
  (forall entry, In entry rules ->
     length (List.filter (fun k => includes allTags k) (snd entry)) = 0%nat) /\
  categorizeVideo video rules "custom" = Some "sea".
Proof.
  cbv zeta. split; [|reflexivity].
  intros entry [<-|[]]. reflexivity.
Qed.

(** C4 (amended): under a scheme other than the duration scheme, with the
    score of a category being the number of its keywords whose lower-case
    form occurs in the lower-cased tags joined by single spaces,
    [categorizeVideo] returns the first category in iteration order whose
    score is the maximum, provided that maximum is positive (a later
    category with the same score does not displace it); when every score
    is zero it returns no category, and [organize_video] then leaves the
    world and the result untouched: nothing is moved and no error is
    recorded. *)
Theorem C4_first_best_category (E : Env) (video : VideoMetadata) (rules : OrganizationScheme)
  (scheme downloadPath : string) :
  scheme <> "duration" ->
  let allTags := toLowerCase (join " " (pm_tags (pexels_metadata video))) in
  (forall pre c kws post,
     rules = (pre ++ (c, kws) :: post)%list ->
     0 < keyword_hits allTags kws ->
     (forall entry, In entry pre -> keyword_hits allTags (snd entry) < keyword_hits allTags kws) ->
     (forall entry, In entry post -> keyword_hits allTags (snd entry) <= keyword_hits allTags kws) ->
     categorizeVideo video rules scheme = Some c) /\
  ((forall entry, In entry rules -> keyword_hits allTags (snd entry) = 0) ->
   categorizeVideo video rules scheme = None /\
   forall o, organize_video E rules scheme downloadPath video o = (Return video, o)).
Proof.
  intros Hs allTags. split.
  - intros pre c kws post -> Hpos Hpre Hpost.
    rewrite categorizeVideo_tags by exact Hs. cbv zeta.
    fold allTags. rewrite fold_best_first_max by (cbn [snd]; assumption).
    cbn [fst snd]. destruct (Z.ltb_spec 0 (keyword_hits allTags kws)); [reflexivity|lia].
  - intros Hzero.
    assert (Hnone : categorizeVideo video rules scheme = None).
    { rewrite categorizeVideo_tags by exact Hs. cbv zeta. fold allTags.
      rewrite fold_best_keep; [reflexivity|].
      intros entry Hin. cbn [snd]. rewrite (Hzero entry Hin). lia. }
    split; [exact Hnone|].
    intros o. now apply organize_video_uncategorized.
Qed.

(** Two categories with the same score: the one listed first is chosen;
    tags that match no keyword: no category. *)
Lemma C4_first_best_category_witness :
  let rules := [("dim", ["fog"]); ("happy", ["sunny"]); ("vivid", ["BRIGHT"])] in
  categorizeVideo (tagged_video 1 ["Sunny"; "Bright sky"] 10) rules "custom" = Some "happy" /\
  categorizeVideo (tagged_video 2 ["granite"] 10) rules "custom" = None.
Proof.
  intros rules. split.
  - refine (proj1 (C4_first_best_category quiet_env (tagged_video 1 ["Sunny"; "Bright sky"] 10)
                     rules "custom" "./downloads" _)
                  [("dim", ["fog"])] "happy" ["sunny"] [("vivid", ["BRIGHT"])] _ _ _ _).
    + discriminate.
    + reflexivity.
    + reflexivity.
    + intros entry [<-|[]]. reflexivity.
    + intros entry [<-|[]]. vm_compute. discriminate.
  - refine (proj1 (proj2 (C4_first_best_category quiet_env (tagged_video 2 ["granite"] 10)
                            rules "custom" "./downloads" _) _)).
    + discriminate.
    + intros entry [<-|[<-|[<-|[]]]]; reflexivity.
Defined.

(** C8: under the duration scheme a duration of at most 15 seconds gives
    [short], a longer one of at most 45 seconds gives [medium], any longer
    one gives [long]; every duration gets one of the three categories, so
    the scheme leaves no asset uncategorized. *)
Theorem C8_duration_buckets (video : VideoMetadata) (rules : OrganizationScheme) :
  let d := pm_duration (pexels_metadata video) in
  ((d <= 15)%Q -> categorizeVideo video rules "duration" = Some "short") /\
  ((15 < d)%Q -> (d <= 45)%Q -> categorizeVideo video rules "duration" = Some "medium") /\
  ((45 < d)%Q -> categorizeVideo video rules "duration" = Some "long") /\
  (exists c, categorizeVideo video rules "duration" = Some c /\
             In c ["short"; "medium"; "long"] /\
             truthy_string (categorizeVideo video rules "duration") = Some c).
Proof.
  intros d. unfold categorizeVideo. cbn [String.eqb Ascii.eqb Bool.eqb]. fold d.
  repeat split.
  - intros H. apply Qle_bool_iff in H. now rewrite H.
  - intros H1 H2. apply Qle_bool_iff in H2. rewrite H2.
    destruct (Qle_bool d 15) eqn:H; [|reflexivity].
    apply Qle_bool_iff in H. exfalso. exact (Qlt_not_le _ _ H1 H).
  - intros H1.
    destruct (Qle_bool d 15) eqn:Ha.
    { apply Qle_bool_iff in Ha. exfalso. apply (Qlt_not_le _ _ H1).
      eapply Qle_trans; [exact Ha|]. discriminate. }
    destruct (Qle_bool d 45) eqn:Hb; [|reflexivity].
    apply Qle_bool_iff in Hb. exfalso. exact (Qlt_not_le _ _ H1 Hb).
  - destruct (Qle_bool d 15); [|destruct (Qle_bool d 45)]; eexists;
      (split; [reflexivity|split; [simpl; tauto|reflexivity]]).
Qed.

(** Durations of exactly 15 s, exactly 45 s and 45.01 s. *)
Lemma C8_duration_buckets_witness :
  categorizeVideo (tagged_video 1 [] 15) [] "duration" = Some "short" /\
  categorizeVideo (tagged_video 2 [] 45) [] "duration" = Some "medium" /\
  categorizeVideo (tagged_video 3 [] (4501 # 100)) [] "duration" = Some "long".
Proof.
  split; [|split].
  - apply (C8_duration_buckets (tagged_video 1 [] 15) []). vm_compute. discriminate.
  - apply (C8_duration_buckets (tagged_video 2 [] 45) []); vm_compute; [reflexivity|discriminate].
  - apply (C8_duration_buckets (tagged_video 3 [] (4501 # 100)) []). vm_compute. reflexivity.
Defined.

(** ** The TTL cache *)

Lemma get_live {T : Type} (key : string) (now : Z) (c : CacheManager.t T)
  (entry : CacheManager.CacheEntry T) :
  CacheManager.cache c !! key = Some entry ->
  now <= CacheManager.expiresAt entry ->
  CacheManager.get key now c = (Some (CacheManager.data entry), c).
Proof.
  intros Hk Hle. unfold CacheManager.get. rewrite Hk.
  destruct (Z.ltb_spec (CacheManager.expiresAt entry) now); [lia|reflexivity].
Qed.

Lemma get_expired {T : Type} (key : string) (now : Z) (c : CacheManager.t T)
  (entry : CacheManager.CacheEntry T) :
  CacheManager.cache c !! key = Some entry ->
  CacheManager.expiresAt entry < now ->
  CacheManager.get key now c
  = (None, CacheManager.with_cache (base.delete key (CacheManager.cache c)) c).
Proof.
  intros Hk Hlt. unfold CacheManager.get. rewrite Hk.
  destruct (Z.ltb_spec (CacheManager.expiresAt entry) now); [reflexivity|lia].
Qed.

(** C5, as it is written, at an override of zero seconds: the entry does
    not expire at [now + 0] but a full default lifetime later, and a [get]
    one second after the [set] still returns the value. *)
Lemma C5_counterexample :
  let c := CacheManager.set "k" 7 (Some 0) 1000 (CacheManager.new 3600) in
  CacheManager.expiresAt <$> CacheManager.cache c !! "k" = Some 3601000 /\
  3601000 <> 1000 + 0 * 1000 /\
  fst (CacheManager.get "k" 2000 c) = Some 7.
Proof. cbv zeta. split; [|split]; [reflexivity|lia|reflexivity]. Qed.

(** C5 (amended): [set(key, value, ttl)] at time [now] stores the value
    under [key] with expiry [now + d * 1000] ms, where [d] is the override
    when one is given and is not zero and the configured default otherwise;
    whatever was stored under [key] before is replaced and no other key is
    touched. A later [get(key)] at time [t] returns the value and leaves
    the cache as it is when [t] is not past the expiry; when [t] is past
    it, [get] returns [null] and deletes the entry. *)
Theorem C5_set_then_get {T : Type} (key : string) (value : T) (customDuration : option Z)
  (now : Z) (c : CacheManager.t T) :
  let d := match customDuration with
           | Some o => if o =? 0 then CacheManager.duration c else o
           | None => CacheManager.duration c
           end in
  let c' := CacheManager.set key value customDuration now c in
  CacheManager.cache c' !! key
  = Some {| CacheManager.data := value; CacheManager.timestamp := now;
            CacheManager.expiresAt := now + d * 1000 |} /\
  (forall k, k <> key -> CacheManager.cache c' !! k = CacheManager.cache c !! k) /\
  CacheManager.duration c' = CacheManager.duration c /\
  forall t,
    (t <= now + d * 1000 -> CacheManager.get key t c' = (Some value, c')) /\
    (now + d * 1000 < t ->
     fst (CacheManager.get key t c') = None /\
     CacheManager.cache (snd (CacheManager.get key t c'))
     = base.delete key (CacheManager.cache c') /\
     CacheManager.cache (snd (CacheManager.get key t c')) !! key = None).
Proof.
  intros d c'.
  assert (Hd : default (CacheManager.duration c) (truthy_Z customDuration) = d).
  { subst d. destruct customDuration as [[| |]|]; reflexivity. }
  assert (Hk : CacheManager.cache c' !! key
               = Some {| CacheManager.data := value; CacheManager.timestamp := now;
                         CacheManager.expiresAt := now + d * 1000 |}).
  { subst c'. unfold CacheManager.set. rewrite Hd. cbn. apply lookup_insert_eq. }
  split; [exact Hk|]. split; [|split].
  - intros k Hne. subst c'. unfold CacheManager.set. cbn. now apply lookup_insert_ne.
  - reflexivity.
  - intros t. split.
    + intros Ht. now rewrite (get_live _ _ _ _ Hk).
    + intros Ht. rewrite (get_expired _ _ _ _ Hk) by exact Ht. cbn.
      split; [reflexivity|]. split; [reflexivity|]. apply lookup_delete_eq.
Qed.

(** A lifetime of one second: the value is there after 0.9 s and gone, with
    its entry, after 1.1 s. *)
Lemma C5_set_then_get_witness :
  let c := CacheManager.set "k" 7 (Some 1) 5000 (CacheManager.new 3600) in
  CacheManager.get "k" 5900 c = (Some 7, c) /\
  fst (CacheManager.get "k" 6100 c) = None /\
  CacheManager.cache (snd (CacheManager.get "k" 6100 c)) !! "k" = None.
Proof.
  cbv zeta.
  pose proof (C5_set_then_get "k" 7 (Some 1) 5000 (CacheManager.new 3600)) as H.
  cbv zeta in H. destruct H as (_ & _ & _ & H).
  split.
  - apply (H 5900). vm_compute. discriminate.
  - destruct (proj2 (H 6100)) as (H1 & _ & H3); [reflexivity|]. split; assumption.
Defined.

(** ** Rendition selection *)

Lemma find_absent {A : Type} (p : A -> bool) (l : list A) :
  (forall x, In x l -> p x = false) -> List.find p l = None.
Proof.
  induction l as [|a l IH]; intros H; [reflexivity|].
  cbn. rewrite (H a) by now left. apply IH. intros x Hx. apply H. now right.
Qed.

Lemma find_preferred_first (pre post : list string) (p : string)
  (videoFiles : list VideoFile) (file : VideoFile) :
  (forall p' f, In p' pre -> In f videoFiles -> vf_quality f <> p') ->
  List.find (fun f => String.eqb (vf_quality f) p) videoFiles = Some file ->
  find_preferred (pre ++ p :: post)%list videoFiles = Some file.
Proof.
  intros Hpre Hfind. induction pre as [|p0 pre IH]; cbn.
  - now rewrite Hfind.
  - rewrite find_absent.
    + apply IH. intros p' f Hp'. apply Hpre. now right.
    + intros f Hf. apply String.eqb_neq. apply Hpre; [now left|exact Hf].
Qed.

Lemma find_preferred_none (prefs : list string) (videoFiles : list VideoFile) :
  (forall f, In f videoFiles -> ~ In (vf_quality f) prefs) ->
  find_preferred prefs videoFiles = None.
Proof.
  intros H. induction prefs as [|p prefs IH]; [reflexivity|]. cbn.
  rewrite find_absent.
  - apply IH. intros f Hf Hin. apply (H f Hf). now right.
  - intros f Hf. apply String.eqb_neq. intros Heq. apply (H f Hf). now left.
Qed.

(** ** The ledger and the set of downloaded ids *)

Lemma filter_fmap {A B : Type} (f : A -> B) (p : B -> bool) (l : list A) :
  List.filter p (f <$> l) = f <$> List.filter (fun x => p (f x)) l.
Proof.
  induction l as [|a l IH]; [reflexivity|].
  cbn. destruct (p (f a)); cbn; now rewrite IH.
Qed.

Arguments path_join : simpl never.
Arguments generateFilename : simpl never.
Arguments estimateBitrate : simpl never.
Arguments extractCodec : simpl never.
Arguments seconds_between : simpl never.
Arguments selectBestQuality : simpl never.
Arguments truthy_string : simpl never.
Arguments quality_text : simpl never.
Arguments categorizeVideo : simpl never.
Arguments List.filter : simpl never.
Arguments pretty : simpl never.

(** Unfolds the combinators and the primitive operations. *)
Ltac unfold_M :=
  unfold saveMetadata, getExistingDownloadResult, downloadedVideos_has, downloadedVideos_add,
    writeJson_metadataFile, ensureDir, axios_get, write_stream, stat_size, fs_move,
    pathExists_metadataFile, readJson_metadataFile, Date_now,
    in_world, in_org_world, zoom, bind, try_catch, ret, throw, modify, get_state,
    lift_outcome, set_world, set_this, set_downloadedVideos, set_metadataFile, set_disk,
    set_dirs, set_transfers, set_clock, set_result, set_org_world in *.

(** Case analysis on every [match] whose subject is not itself a [match]. *)
Ltac crunch :=
  repeat (cbn in *;
          match goal with
          | |- context [match ?x with _ => _ end] =>
              lazymatch x with
              | context [match _ with _ => _ end] => fail
              | _ => destruct x eqn:?
              end
          end);
  cbn in *.

(** [saveMetadata] never throws; it either records the asset in the file
    and in the set, or changes nothing. *)
Lemma saveMetadata_eq (E : Env) (videoMetadata : VideoMetadata) (s : Sys) :
  saveMetadata E videoMetadata s
  = (Return tt, if save_succeeds E videoMetadata s then recorded videoMetadata s else s).
Proof.
  destruct s as [t w]. unfold save_succeeds, recorded, ledger_records, replaced.
  unfold_M. crunch; congruence.
Qed.

Lemma ids_replaced (videoMetadata : VideoMetadata) (records : list VideoMetadata) :
  vm_id <$> replaced videoMetadata records
  = (List.filter (fun id => negb (id =? vm_id videoMetadata)) (vm_id <$> records)
     ++ [vm_id videoMetadata])%list.
Proof.
  unfold replaced. now rewrite fmap_app, filter_fmap.
Qed.

Lemma NoDup_filter_Z (p : Z -> bool) (l : list Z) : NoDup l -> NoDup (List.filter p l).
Proof. intros H. apply NoDup_ListNoDup. now apply List.NoDup_filter, NoDup_ListNoDup. Qed.

(** Replacing keeps the ids without repetition. *)
Lemma NoDup_replaced (videoMetadata : VideoMetadata) (records : list VideoMetadata) :
  NoDup (vm_id <$> records) -> NoDup (vm_id <$> replaced videoMetadata records).
Proof.
  intros H. rewrite ids_replaced. apply NoDup_app. split; [now apply NoDup_filter_Z|].
  split; [|apply NoDup_singleton].
  intros x Hx Hx'. apply list_elem_of_In in Hx. apply List.filter_In in Hx as [_ Hx].
  apply list_elem_of_singleton in Hx'. subst x. rewrite Z.eqb_refl in Hx. discriminate.
Qed.

Lemma elem_of_ids_replaced (videoMetadata : VideoMetadata) (records : list VideoMetadata) (id : Z) :
  id ∈ vm_id <$> replaced videoMetadata records ->
  id = vm_id videoMetadata \/ id ∈ vm_id <$> records.
Proof.
  rewrite ids_replaced. intros H. apply elem_of_app in H as [H|H].
  - right. apply list_elem_of_In in H. apply List.filter_In in H as [H _].
    now apply list_elem_of_In.
  - left. now apply list_elem_of_singleton in H.
Qed.

Lemma recorded_one_record_per_id (videoMetadata : VideoMetadata) (s : Sys) :
  one_record_per_id (world s) -> one_record_per_id (world (recorded videoMetadata s)).
Proof.
  unfold one_record_per_id, ledger_ids, recorded, ledger_records. cbn.
  apply NoDup_replaced.
Qed.

Lemma recorded_mirrors (videoMetadata : VideoMetadata) (s : Sys) :
  mirrors s -> mirrors (recorded videoMetadata s).
Proof.
  unfold mirrors, ledger_ids. intros H id Hid. cbn in *.
  apply elem_of_ids_replaced in Hid as [->|Hid]; [set_solver|].
  apply elem_of_union_r. now apply H.
Qed.

(** Under the invariant, the record that [find] returns for an id is the
    record of that id. *)
Lemma find_record_unique (records : list VideoMetadata) (record : VideoMetadata) :
  NoDup (vm_id <$> records) -> record ∈ records ->
  List.find (fun v => vm_id v =? vm_id record) records = Some record.
Proof.
  induction records as [|r records IH]; intros Hnd Hin.
  - now apply elem_of_nil in Hin.
  - cbn [fmap list_fmap] in Hnd. apply NoDup_cons in Hnd as [Hr Hnd].
    cbn [List.find]. apply elem_of_cons in Hin as [->|Hin].
    + now rewrite Z.eqb_refl.
    + destruct (Z.eqb_spec (vm_id r) (vm_id record)) as [Heq|_]; [|now apply IH].
      exfalso. apply Hr. rewrite Heq. now apply list_elem_of_fmap_2.
Qed.

(** ** Computations that respect a relation on states *)

Section Respects.
Context {S : Type} (R : relation S) `{!PreOrder R}.

Lemma respects_ret {A : Type} (a : A) : respects R (ret a).
Proof. intros s. reflexivity. Qed.

Lemma respects_bind {A B : Type} (m : M S A) (k : A -> M S B) :
  respects R m -> (forall a, respects R (k a)) -> respects R (bind m k).
Proof.
  intros Hm Hk s. unfold bind. specialize (Hm s).
  destruct (m s) as [[a|msg] s1]; cbn in *; [|exact Hm].
  etransitivity; [exact Hm|apply Hk].
Qed.

Lemma respects_mapM {A B : Type} (f : A -> M S B) (l : list A) :
  (forall x, respects R (f x)) -> respects R (mapM f l).
Proof.
  intros Hf. induction l as [|x l IH]; cbn [mapM].
  - apply respects_ret.
  - apply respects_bind; [apply Hf|]. intros y.
    apply respects_bind; [exact IH|]. intros ys. apply respects_ret.
Qed.
End Respects.

(** A list of computations that all return, returns. *)
Lemma mapM_returns {S A B : Type} (P : A -> B -> Prop) (f : A -> M S B) (l : list A) (s : S) :
  (forall x s, exists y, fst (f x s) = Return y /\ P x y) ->
  exists ys, fst (mapM f l s) = Return ys /\ Forall2 P l ys.
Proof.
  intros Hf. revert s. induction l as [|x l IH]; intros s; cbn [mapM].
  - exists []. split; [reflexivity|constructor].
  - unfold bind at 1. destruct (Hf x s) as (y & Hy & HP).
    destruct (f x s) as [o s1]. cbn in Hy. subst o.
    unfold bind at 1. destruct (IH s1) as (ys & Hys & HF).
    destruct (mapM f l s1) as [o s2]. cbn in Hys. subst o.
    exists (y :: ys). split; [reflexivity|now constructor].
Qed.

(** ** One call of [downloadVideo] *)


(** The effect of one call: the ledger and the set are left alone or the
    asset is recorded in both, and at most one transfer is made, only for
    an id that the set does not hold. *)
Lemma downloadVideo_effect (E : Env) (videoDetails : PexelsVideo) (options : DownloadOptions)
  (s : Sys) :
  let s' := snd (downloadVideo E videoDetails options s) in
  ((this s' = this s /\ metadataFile (world s') = metadataFile (world s)) \/
   (exists videoMetadata,
      vm_id videoMetadata = video_id options /\
      this s' = this (recorded videoMetadata s) /\
      metadataFile (world s') = metadataFile (world (recorded videoMetadata s)))) /\
  (transfers (world s') = transfers (world s) \/
   ((video_id options ∉ downloadedVideos (this s)) /\
    exists link, transfers (world s') = (video_id options, link) :: transfers (world s))).
Proof.
  destruct s as [t w]. unfold downloadVideo, recorded, ledger_records. unfold_M.
  crunch;
    (split;
     [ first [ left; split; [reflexivity|congruence]
             | right;
               match goal with |- context [(_ ++ [?r])%list] => exists r end;
               split; [reflexivity|split; reflexivity] ]
     | first [ left; reflexivity
             | right; split;
               [eapply bool_decide_eq_false_1; eassumption|eexists; reflexivity] ] ]).
Qed.

(** A call for an id of the set changes nothing. *)
Lemma downloadVideo_known_state (E : Env) (videoDetails : PexelsVideo)
  (options : DownloadOptions) (s : Sys) :
  video_id options ∈ downloadedVideos (this s) ->
  snd (downloadVideo E videoDetails options s) = s.
Proof.
  intros Hin. destruct s as [t w]. cbn in Hin. unfold downloadVideo. unfold_M. cbn.
  rewrite bool_decide_eq_true_2 by exact Hin. crunch; reflexivity.
Qed.

Lemma one_record_per_id_ext (w w' : World) :
  metadataFile w' = metadataFile w -> one_record_per_id w -> one_record_per_id w'.
Proof. unfold one_record_per_id, ledger_ids, ledger_records. now intros ->. Qed.

Lemma mirrors_ext (s s' : Sys) :
  downloadedVideos (this s) ⊆ downloadedVideos (this s') ->
  metadataFile (world s') = metadataFile (world s) ->
  mirrors s -> mirrors s'.
Proof.
  unfold mirrors, ledger_ids, ledger_records. intros Hsub -> H id Hid.
  apply Hsub. now apply H.
Qed.

Lemma downloadVideo_one_record_per_id (E : Env) (videoDetails : PexelsVideo)
  (options : DownloadOptions) (s : Sys) :
  one_record_per_id (world s) ->
  one_record_per_id (world (snd (downloadVideo E videoDetails options s))).
Proof.
  intros H.
  destruct (downloadVideo_effect E videoDetails options s) as [[[_ Hf]|(vm & _ & _ & Hf)] _].
  - now apply (one_record_per_id_ext (world s)).
  - apply (one_record_per_id_ext (world (recorded vm s))); [exact Hf|].
    now apply recorded_one_record_per_id.
Qed.

Lemma downloadVideo_mirrors (E : Env) (videoDetails : PexelsVideo)
  (options : DownloadOptions) (s : Sys) :
  mirrors s -> mirrors (snd (downloadVideo E videoDetails options s)).
Proof.
  intros H.
  destruct (downloadVideo_effect E videoDetails options s) as [[[Ht Hf]|(vm & _ & Ht & Hf)] _].
  - apply (mirrors_ext s); [now rewrite Ht|exact Hf|exact H].
  - apply (mirrors_ext (recorded vm s)); [now rewrite Ht|exact Hf|].
    now apply recorded_mirrors.
Qed.

Lemma downloadVideo_grows (E : Env) (videoDetails : PexelsVideo)
  (options : DownloadOptions) (s : Sys) :
  downloadedVideos (this s) ⊆ downloadedVideos (this (snd (downloadVideo E videoDetails options s))).
Proof.
  destruct (downloadVideo_effect E videoDetails options s) as [[[Ht _]|(vm & _ & Ht & _)] _];
    rewrite Ht; [reflexivity|]. cbn. set_solver.
Qed.

(** ** A batch *)

#[local] Instance batch_rel_preorder : PreOrder batch_rel.
Proof.
  split.
  - intros s. split; [reflexivity|]. split; [|tauto].
    exists []. split; [reflexivity|]. intros x Hx. now apply elem_of_nil in Hx.
  - intros s1 s2 s3 (Hs12 & (n12 & Ht12 & Hn12) & Hu12 & Hm12)
                    (Hs23 & (n23 & Ht23 & Hn23) & Hu23 & Hm23).
    split; [now transitivity (downloadedVideos (this s2))|].
    split; [|tauto].
    exists (n23 ++ n12)%list. split.
    + rewrite Ht23, Ht12. now rewrite app_assoc.
    + intros x Hx. apply elem_of_app in Hx as [Hx|Hx]; [|now apply Hn12].
      intros Hin. apply (Hn23 x Hx). now apply Hs12.
Qed.

Lemma downloadVideo_batch_rel (E : Env) (videoDetails : PexelsVideo)
  (options : DownloadOptions) :
  respects batch_rel (downloadVideo E videoDetails options).
Proof.
  intros s. split; [apply downloadVideo_grows|].
  split; [|split; [apply downloadVideo_one_record_per_id|apply downloadVideo_mirrors]].
  destruct (downloadVideo_effect E videoDetails options s) as [_ [Ht|(Hnew & link & Ht)]].
  - exists []. split; [exact Ht|]. intros x Hx. now apply elem_of_nil in Hx.
  - exists [(video_id options, link)]. split; [exact Ht|].
    intros x Hx. apply list_elem_of_singleton in Hx. now subst x.
Qed.

Lemma batchDownload_batch_rel (E : Env) (videos : list PexelsVideo)
  (options : BatchDownloadOptions) :
  respects batch_rel (batchDownload E videos options).
Proof.
  unfold batchDownload. apply respects_bind; [typeclasses eauto| |].
  - intros s. reflexivity.
  - intros s. apply respects_mapM; [typeclasses eauto|].
    intros video. apply downloadVideo_batch_rel.
Qed.








(** ** Loading the ledger *)

Lemma add_all_effect (records : list VideoMetadata) (s : Sys) :
  let s' := snd (mapM (fun video => downloadedVideos_add (vm_id video)) records s) in
  world s' = world s /\
  forall id, id ∈ downloadedVideos (this s')
             <-> id ∈ vm_id <$> records \/ id ∈ downloadedVideos (this s).
Proof.
  revert s. induction records as [|r records IH]; intros s; cbn [mapM].
  - cbn. split; [reflexivity|]. intros id. rewrite elem_of_nil. tauto.
  - specialize (IH (set_this (set_downloadedVideos
                                ({[vm_id r]} ∪ downloadedVideos (this s)) (this s)) s)).
    unfold bind, ret, downloadedVideos_add, modify in *. cbn in IH |- *.
    match goal with
    | |- context [mapM ?f records ?st] => destruct (mapM f records st) as [[us|msg] s1]
    end; cbn in IH |- *;
      destruct IH as [Hw Hd]; (split; [exact Hw|]); intros id; rewrite Hd;
      rewrite elem_of_cons, elem_of_union, elem_of_singleton; tauto.
Qed.

(** Whatever the state before, after [loadMetadata] the set holds every id
    of the ledger. *)
Lemma loadMetadata_mirrors (s : Sys) : mirrors (snd (loadMetadata s)).
Proof.
  destruct s as [t w]. unfold mirrors, ledger_ids, ledger_records, loadMetadata.
  pose proof (add_all_effect (ledger_records w) {| this := t; world := w |}) as H.
  unfold ledger_records in H. unfold_M. cbn in H |- *.
  destruct (metadataFile w) as [| |records] eqn:Hf; cbn; rewrite ?Hf; cbn; rewrite ?Hf;
    try (intros id Hid; now apply elem_of_nil in Hid).
  match goal with
  | |- context [mapM ?f records ?st] => destruct (mapM f records st) as [[us|msg] s1]
  end; cbn in H |- *; destruct H as [Hw Hd]; rewrite Hw, Hf;
    intros id Hid; apply Hd; now left.
Qed.

(** ** Dedup, selection, recording *)




(** The transfer made by a fetch that gets as far as the request is the
    transfer of the selected rendition. *)
Lemma downloadVideo_transfer (E : Env) (videoDetails : PexelsVideo) (options : DownloadOptions)
  (s : Sys) (videoFile : VideoFile) :
  video_id options ∉ downloadedVideos (this s) ->
  selectBestQuality (video_files videoDetails) (default hd (quality options)) = Some videoFile ->
  env_ensureDir E (category_dir (this s) options) = Return tt ->
  transfers (world (snd (downloadVideo E videoDetails options s)))
  = (video_id options, vf_link videoFile) :: transfers (world s).
Proof.
  intros Hnew Hsel Hdir. destruct s as [t w]. unfold category_dir in Hdir. cbn in Hnew, Hdir.
  unfold downloadVideo. unfold_M. cbn.
  rewrite bool_decide_eq_false_2 by exact Hnew. cbn. rewrite Hsel.
  destruct (truthy_string (filename options)); cbn; rewrite Hdir; cbn;
    crunch; reflexivity.
Qed.

(** A fetch of an asset without renditions fails before it touches
    anything. *)
Lemma downloadVideo_no_rendition (E : Env) (videoDetails : PexelsVideo)
  (options : DownloadOptions) (s : Sys) :
  video_id options ∉ downloadedVideos (this s) ->
  video_files videoDetails = [] ->
  exists r,
    downloadVideo E videoDetails options s = (Return r, s) /\
    dr_status r = failed /\
    dr_error r = Some ("No suitable video file found for quality: "
                       +:+ quality_text (quality options)).
Proof.
  intros Hnew Hnil. destruct s as [t w]. cbn in Hnew.
  unfold downloadVideo. unfold_M. cbn.
  rewrite bool_decide_eq_false_2 by exact Hnew. cbn. rewrite Hnil.
  assert (Hsel : selectBestQuality [] (default hd (quality options)) = None).
  { unfold selectBestQuality. now destruct (default hd (quality options)). }
  rewrite Hsel. cbn. eexists. split; [reflexivity|]. split; reflexivity.
Qed.

(** C7: for a fetch that gets past the dedup check, with [q] the requested
    quality ([hd] when none is given): the preference orders are
    hd, sd, mobile for [hd]; sd, hd, mobile for [sd]; mobile, sd, hd for
    [mobile]. The selected rendition is the first rendition of the first
    quality of that order that the asset offers; when the asset offers no
    quality of the order, it is the first rendition of the list. The
    selected rendition is the one whose link is requested. An asset with
    no renditions gives a [failed] result with the error
    "No suitable video file found for quality: ...", and nothing is
    touched. *)
Theorem C7_rendition_selection (E : Env) (videoDetails : PexelsVideo)
  (options : DownloadOptions) (s : Sys) :
  video_id options ∉ downloadedVideos (this s) ->
  let q := default hd (quality options) in
  let files := video_files videoDetails in
  (qualityOrder hd = ["hd"; "sd"; "mobile"] /\
   qualityOrder sd = ["sd"; "hd"; "mobile"] /\
   qualityOrder mobile = ["mobile"; "sd"; "hd"]) /\
  (forall pre p post file,
     qualityOrder q = (pre ++ p :: post)%list ->
     (forall p' f, In p' pre -> In f files -> vf_quality f <> p') ->
     List.find (fun f => String.eqb (vf_quality f) p) files = Some file ->
     selectBestQuality files q = Some file) /\
  ((forall f, In f files -> ~ In (vf_quality f) (qualityOrder q)) ->
   selectBestQuality files q = head files) /\
  (forall file,
     selectBestQuality files q = Some file ->
     env_ensureDir E (category_dir (this s) options) = Return tt ->
     transfers (world (snd (downloadVideo E videoDetails options s)))
     = (video_id options, vf_link file) :: transfers (world s)) /\
  (files = [] ->
   exists r,
     downloadVideo E videoDetails options s = (Return r, s) /\
     dr_status r = failed /\
     dr_error r = Some ("No suitable video file found for quality: "
                        +:+ quality_text (quality options))).
Proof.
  intros Hnew q files. split; [repeat split|]. split; [|split; [|split]].
  - intros pre p post file Horder Hpre Hfind. unfold selectBestQuality.
    rewrite Horder. now rewrite (find_preferred_first pre post p files file).
  - intros Hnone. unfold selectBestQuality. now rewrite find_preferred_none.
  - intros file Hsel Hdir. now apply downloadVideo_transfer.
  - intros Hnil. now apply downloadVideo_no_rendition.
Qed.

(** Asking for [mobile] when the asset has an hd and an sd rendition selects
    the sd one, and its link is the one requested. *)
Lemma C7_rendition_selection_witness :
  let files := [rendition "hd" "https://cdn/hd.mp4"; rendition "sd" "https://cdn/sd.mp4"] in
  let s := {| this := {| downloadPath := "./downloads"; maxConcurrent := 3;
                         downloadedVideos := ∅ |};
              world := empty_world |} in
  selectBestQuality files mobile = Some (rendition "sd" "https://cdn/sd.mp4") /\
  transfers (world (snd (downloadVideo quiet_env (asset 7 files) (fetch_of 7 (Some mobile)) s)))
  = [(7, "https://cdn/sd.mp4")] /\
  exists r, downloadVideo quiet_env (asset 8 []) (fetch_of 8 (Some mobile)) s = (Return r, s) /\
            dr_status r = failed.
Proof.
  intros files s.
  assert (Hnew : forall id : Z, id ∉ downloadedVideos (this s)).
  { intros id. cbn. apply not_elem_of_empty. }
  destruct (C7_rendition_selection quiet_env (asset 7 files) (fetch_of 7 (Some mobile)) s
              (Hnew 7)) as (_ & Hfirst & _ & Hlink & _).
  destruct (C7_rendition_selection quiet_env (asset 8 []) (fetch_of 8 (Some mobile)) s
              (Hnew 8)) as (_ & _ & _ & _ & Hnone).
  assert (Hsel : selectBestQuality files mobile = Some (rendition "sd" "https://cdn/sd.mp4")).
  { apply (Hfirst ["mobile"] "sd" ["hd"]); [reflexivity| |reflexivity].
    intros p' f [<-|[]] [<-|[<-|[]]]; discriminate. }
  split; [exact Hsel|]. split.
  - apply (Hlink _ Hsel). reflexivity.
  - destruct (Hnone eq_refl) as (r & Hr & Hst & _). exists r. now split.
Defined.

(** C10: a fetch that gets past the dedup check, finds a rendition,
    creates its directory, receives the body and writes the file, but
    whose write of the ledger fails, still returns a [success] result for
    the file it wrote; the ledger file and the manager (its set included)
    are as before, so neither records the asset. *)
Theorem C10_ledger_write_failure (E : Env) (videoDetails : PexelsVideo)
  (options : DownloadOptions) (s : Sys) (videoFile : VideoFile) (body : Z) (msg : string) :
  mirrors s ->
  video_id options ∉ downloadedVideos (this s) ->
  selectBestQuality (video_files videoDetails) (default hd (quality options)) = Some videoFile ->
  env_ensureDir E (category_dir (this s) options) = Return tt ->
  env_get E (vf_link videoFile) = Return body ->
  (forall path, env_write E path = Return tt) ->
  (forall records, env_writeJson E records = Throw msg) ->
  exists r s',
    downloadVideo E videoDetails options s = (Return r, s') /\
    dr_status r = success /\
    dr_file_size r = body /\
    disk (world s') !! dr_local_path r = Some body /\
    this s' = this s /\
    metadataFile (world s') = metadataFile (world s) /\
    (video_id options ∉ downloadedVideos (this s')) /\
    (video_id options ∉ ledger_ids (world s')).
Proof.
  intros Hm Hnew Hsel Hdir Hget Hwrite Hjson.
  assert (Hled : video_id options ∉ ledger_ids (world s)) by (intros H; now apply Hnew, Hm).
  destruct s as [t w]. unfold category_dir in Hdir. unfold ledger_ids, ledger_records in Hled.
  cbn in Hnew, Hdir, Hled.
  unfold downloadVideo. unfold_M. cbn.
  rewrite bool_decide_eq_false_2 by exact Hnew. cbn. rewrite Hsel.
  destruct (truthy_string (filename options)); cbn; rewrite Hdir; cbn; rewrite Hget; cbn;
    rewrite Hwrite; cbn; rewrite lookup_insert_eq; cbn;
    destruct (metadataFile w) eqn:Hf; cbn; rewrite ?Hjson; cbn;
    (eexists; eexists; split; [reflexivity|]); cbn;
    rewrite ?lookup_insert_eq, ?Hf; repeat split; assumption.
Qed.

Lemma C10_ledger_write_failure_witness :
  let E := {| env_ensureDir := fun _ => Return tt;
              env_get := fun _ => Return 2048;
              env_latency := fun _ => 1500;
              env_write := fun _ => Return tt;
              env_writeJson := fun _ => Throw "EACCES: permission denied";
              env_move := fun _ _ => Return tt |} in
  let s := {| this := {| downloadPath := "./downloads"; maxConcurrent := 3;
                         downloadedVideos := ∅ |};
              world := empty_world |} in
  exists r s',
    downloadVideo E (asset 7 [rendition "hd" "https://cdn/hd.mp4"]) (fetch_of 7 None) s
    = (Return r, s') /\
    dr_status r = success /\
    dr_file_size r = 2048 /\
    disk (world s') !! dr_local_path r = Some 2048 /\
    this s' = this s /\
    metadataFile (world s') = metadataFile (world s) /\
    (7 ∉ downloadedVideos (this s')) /\
    (7 ∉ ledger_ids (world s')).
Proof.
  intros E s.
  refine (C10_ledger_write_failure E (asset 7 [rendition "hd" "https://cdn/hd.mp4"])
            (fetch_of 7 None) s (rendition "hd" "https://cdn/hd.mp4") 2048
            "EACCES: permission denied" _ _ eq_refl eq_refl eq_refl
            (fun _ => eq_refl) (fun _ => eq_refl)).
  - intros id Hid. now apply elem_of_nil in Hid.
  - cbn. apply not_elem_of_empty.
Defined.

(** ** A run of [organizeByCategory] *)

#[local] Instance org_rel_preorder : PreOrder org_rel.
Proof.
  split.
  - intros o. repeat split.
  - intros o1 o2 o3 (H1 & H2 & H3 & H4) (K1 & K2 & K3 & K4).
    repeat split; congruence.
Qed.

Lemma organize_video_org_rel (E : Env) (rules : OrganizationScheme)
  (scheme downloadPath : string) (video : VideoMetadata) :
  respects org_rel (organize_video E rules scheme downloadPath video).
Proof.
  intros [r w]. unfold organize_video, moveVideoToCategory, org_rel, count_move. unfold_M.
  crunch; repeat split; reflexivity.
Qed.

(** A turn never throws, and leaves the id of its record alone. *)
Lemma organize_video_returns (E : Env) (rules : OrganizationScheme)
  (scheme downloadPath : string) (video : VideoMetadata) (o : Org) :
  exists video', fst (organize_video E rules scheme downloadPath video o) = Return video' /\
                 vm_id video' = vm_id video.
Proof.
  destruct o as [r w]. unfold organize_video, moveVideoToCategory. unfold_M.
  crunch; try congruence; eexists; (split; [reflexivity|]); reflexivity.
Qed.

(** A run keeps the ids of the ledger and makes no transfer; its list of
    errors is empty unless its status is [failed]. *)
Lemma organizeByCategory_effect (E : Env) (downloadPath : string)
  (options : OrganizationOptions) (w : World) :
  let r := fst (organizeByCategory E downloadPath options w) in
  let w' := snd (organizeByCategory E downloadPath options w) in
  ledger_ids w' = ledger_ids w /\
  transfers w' = transfers w /\
  (status r = success -> errors r = []).
Proof.
  unfold organizeByCategory, ledger_ids, ledger_records.
  set (scheme := default "emotion" (truthy_string (organization_scheme options))).
  destruct (if String.eqb scheme "custom" then custom_rules options
            else organizationSchemes scheme) as [rules|].
  2: { unfold_M. cbn. split; [|split]; [reflexivity|reflexivity|discriminate]. }
  unfold_M. cbn.
  destruct (metadataFile w) as [| |records] eqn:Hf; cbn; rewrite ?Hf; cbn; rewrite ?Hf.
  1, 2: split; [|split]; [reflexivity|reflexivity|discriminate].
  match goal with
  | |- context [mapM ?f records ?st] =>
      pose proof (respects_mapM org_rel f records
                    (organize_video_org_rel E rules scheme downloadPath) st)
        as (Hfile & Htr & Hst & Her);
      destruct (mapM_returns (fun v v' => vm_id v' = vm_id v) f records st
                  (organize_video_returns E rules scheme downloadPath))
        as (records' & Hret & Hids);
      destruct (mapM f records st) as [o o1]
  end.
  cbn in Hret, Hfile, Htr, Hst, Her. subst o. destruct o1 as [r1 w1].
  cbn in Hfile, Htr, Hst, Her |- *.
  assert (Hsame : vm_id <$> records' = vm_id <$> records).
  { clear -Hids. induction Hids as [|v v' l l' Hv _ IH]; [reflexivity|].
    cbn [fmap list_fmap]. now rewrite Hv, IH. }
  destruct (env_writeJson E records'); cbn.
  - split; [|split]; [exact Hsame|exact Htr|]. intros _. exact Her.
  - rewrite Hfile, Hf. split; [|split]; [reflexivity|exact Htr|discriminate].
Qed.

Lemma organizeByCategory_one_record_per_id (E : Env) (downloadPath : string)
  (options : OrganizationOptions) (w : World) :
  one_record_per_id w ->
  one_record_per_id (snd (organizeByCategory E downloadPath options w)).
Proof.
  unfold one_record_per_id.
  now destruct (organizeByCategory_effect E downloadPath options w) as (-> & _).
Qed.

(** A run of the organization manager does not put the manager's set out
    of step with the ledger. *)
Lemma organizeByCategory_mirrors (E : Env) (downloadPath : string)
  (options : OrganizationOptions) (s : Sys) :
  mirrors s ->
  mirrors (set_world (snd (organizeByCategory E downloadPath options (world s))) s).
Proof.
  unfold mirrors, set_world. cbn [world this].
  destruct (organizeByCategory_effect E downloadPath options (world s)) as (Heq & _).
  cbv zeta in Heq. now rewrite Heq.
Qed.

(** ** The invariant of the ledger *)

(** C6: every writer of the ledger keeps "at most one record per asset
    id". [saveMetadata], the append made when a fetch completes, either
    changes nothing or leaves the records other than those with the id of
    the new record, followed by the new record; so do, through it,
    [downloadVideo] and [batchDownload]; [organizeByCategory] writes back
    records with the ids it read. A ledger that does not exist yet
    satisfies the invariant. *)
Theorem C6_one_record_per_id (E : Env) :
  (forall w, metadataFile w = Missing -> one_record_per_id w) /\
  (forall videoMetadata s,
     let s' := snd (saveMetadata E videoMetadata s) in
     (s' = s \/
      ledger_records (world s')
      = (List.filter (fun video => negb (vm_id video =? vm_id videoMetadata))
                     (ledger_records (world s))
         ++ [videoMetadata])%list) /\
     (one_record_per_id (world s) -> one_record_per_id (world s'))) /\
  (forall videoDetails options s,
     one_record_per_id (world s) ->
     one_record_per_id (world (snd (downloadVideo E videoDetails options s)))) /\
  (forall videos options s,
     one_record_per_id (world s) ->
     one_record_per_id (world (snd (batchDownload E videos options s)))) /\
  (forall downloadPath options w,
     one_record_per_id w ->
     one_record_per_id (snd (organizeByCategory E downloadPath options w))).
Proof.
  split; [|split; [|split; [|split]]].
  - intros w Hf. unfold one_record_per_id, ledger_ids, ledger_records. rewrite Hf.
    apply NoDup_nil_2.
  - intros videoMetadata s. cbv zeta. rewrite saveMetadata_eq. cbn [snd].
    destruct (save_succeeds E videoMetadata s).
    + split; [right; reflexivity|]. apply recorded_one_record_per_id.
    + split; [now left|tauto].
  - intros videoDetails options s. apply downloadVideo_one_record_per_id.
  - intros videos options s. apply (batchDownload_batch_rel E videos options s).
  - intros downloadPath options w. apply organizeByCategory_one_record_per_id.
Qed.

(** Recording the same asset twice leaves one record for it. *)
Lemma C6_one_record_per_id_witness :
  let s0 := {| this := {| downloadPath := "./downloads"; maxConcurrent := 3;
                          downloadedVideos := ∅ |};
               world := empty_world |} in
  let s1 := snd (saveMetadata quiet_env (tagged_video 7 ["ocean"] 10) s0) in
  let s2 := snd (saveMetadata quiet_env (tagged_video 7 ["sea"] 10) s1) in
  one_record_per_id (world s2) /\ ledger_ids (world s2) = [7].
Proof.
  intros s0 s1 s2.
  destruct (C6_one_record_per_id quiet_env) as (Hnew & Hsave & _).
  split; [|reflexivity].
  apply (Hsave (tagged_video 7 ["sea"] 10) s1).
  apply (Hsave (tagged_video 7 ["ocean"] 10) s0).
  apply Hnew. reflexivity.
Defined.

(** ** Filtering and deduplication in a batch *)





(** ** Errors of a run of [organizeByCategory] *)

(** C3, at a ledger whose only record names a file that is no longer on
    disk: the scheme is valid and the ledger is read and written, the
    record is given the category [calm], the move of its file fails with
    ENOENT inside [moveVideoToCategory], which answers [false], and the
    result of the run has status [success], no moved file and an empty
    list of errors: the failure of asset 7 is not recorded. *)
Theorem C3_move_failure_is_not_recorded :
  let video := tagged_video 7 ["water"] 10 in
  let w := set_metadataFile (Json [video]) empty_world in
  let options := {| organization_scheme := Some "emotion"; custom_rules := None |} in
  categorizeVideo video (default [] (organizationSchemes "emotion")) "emotion" = Some "calm" /\
  fst (fs_move quiet_env "./downloads/clip.mp4" "./downloads/calm/clip.mp4"
         (set_dirs {["./downloads/calm"]} w))
  = Throw "ENOENT: no such file or directory" /\
  fst (moveVideoToCategory quiet_env video "calm" "./downloads" w) = Return (false, video) /\
  fst (organizeByCategory quiet_env "./downloads" options w)
  = {| status := success; moved_files := 0; categories_created := []; errors := [] |} /\
  metadataFile (snd (organizeByCategory quiet_env "./downloads" options w)) = Json [video].
Proof. cbv zeta. repeat split; vm_compute; reflexivity. Qed.

(** In every run, a non-empty list of errors comes with the status
    [failed]: no error of a single asset is ever added to a successful
    run. *)
Lemma organizeByCategory_errors_only_when_failed (E : Env) (downloadPath : string)
  (options : OrganizationOptions) (w : World) :
  status (fst (organizeByCategory E downloadPath options w)) = success ->
  errors (fst (organizeByCategory E downloadPath options w)) = [].
Proof. apply organizeByCategory_effect. Qed.

(** ** The manager after construction *)

Arguments loadMetadata : simpl never.

(** Once [initialize] has created the download directory and read the
    ledger, the set is in step with the ledger. *)
Lemma new_DownloadManager_mirrors (E : Env) (path : string) (n : nat) (w : World) :
  env_ensureDir E path = Return tt -> mirrors (new_DownloadManager E path n w).
Proof.
  intros Hdir. unfold new_DownloadManager, initialize. unfold_M. cbn. rewrite Hdir. cbn.
  apply loadMetadata_mirrors.
Qed.

(** X1: every state the manager can get to (constructed with its directory
    created and its ledger loaded, then any sequence of fetches, batches
    and runs of the organization manager) has the set in step with the
    ledger: an id with a record in the ledger is in [downloadedVideos]. *)
Lemma reachable_mirrors (s : Sys) : reachable s -> mirrors s.
Proof.
  induction 1 as [E path n w Hdir|E videoDetails options s _ IH|E videos options s _ IH
                 |E downloadPath options s _ IH].
  - now apply new_DownloadManager_mirrors.
  - now apply downloadVideo_mirrors.
  - now apply (batchDownload_batch_rel E videos options s).
  - now apply organizeByCategory_mirrors.
Qed.

(** ** Scenarios *)

(** Fetching the same asset twice: the second call makes no transfer and
    returns the path and the size of the first. *)
Lemma fetch_twice :
  let s0 := new_DownloadManager quiet_env "./downloads" 3 empty_world in
  let video := asset 7 [rendition "hd" "https://cdn/7.mp4"] in
  match downloadVideo quiet_env video (fetch_of 7 None) s0 with
  | (Return r1, s1) =>
      match downloadVideo quiet_env video (fetch_of 7 None) s1 with
      | (Return r2, s2) =>
          dr_status r1 = success /\ dr_status r2 = success /\
          dr_local_path r2 = dr_local_path r1 /\
          dr_file_size r2 = dr_file_size r1 /\
          dr_download_time r1 = (1500 # 1000)%Q /\
          dr_download_time r2 = 0%Q /\
          transfers (world s1) = [(7, "https://cdn/7.mp4")] /\
          transfers (world s2) = transfers (world s1)
      | _ => False
      end
  | _ => False
  end.
Proof. vm_compute. repeat split. Qed.

(** A batch of three candidates with a maximum of two and no filter block,
    asset 7 being in the ledger already: two results, the first rebuilt
    from the ledger, one transfer, and one more record in the ledger. *)
Lemma batch_with_known_asset :
  let s := manager_with 7 ["ocean"] in
  let options := {| max_videos := Some 2; batch_quality := None; batch_category := None;
                    filter_criteria := None |} in
  let videos := [asset 7 [rendition "hd" "https://cdn/7.mp4"];
                 asset 8 [rendition "hd" "https://cdn/8.mp4"];
                 asset 9 [rendition "hd" "https://cdn/9.mp4"]] in
  match batchDownload quiet_env videos options s with
  | (Return results, s') =>
      dr_video_id <$> results = [7; 8] /\
      dr_status <$> results = [success; success] /\
      dr_download_time <$> results = [0%Q; (1500 # 1000)%Q] /\
      fst <$> transfers (world s') = [8] /\
      ledger_ids (world s') = [7; 8]
  | _ => False
  end.
Proof. vm_compute. repeat split. Qed.

(** A run whose scheme is valid, whose ledger is read and whose write goes
    through has the status [success], whatever happens to the moves. *)
Lemma organizeByCategory_success (E : Env) (downloadPath : string)
  (options : OrganizationOptions) (w : World) (rules : OrganizationScheme)
  (records : list VideoMetadata) :
  (let scheme := default "emotion" (truthy_string (organization_scheme options)) in
   if String.eqb scheme "custom" then custom_rules options else organizationSchemes scheme)
  = Some rules ->
  metadataFile w = Json records ->
  (forall l, env_writeJson E l = Return tt) ->
  status (fst (organizeByCategory E downloadPath options w)) = success.
Proof.
  cbv zeta. intros Hrules Hf Hwrite. unfold organizeByCategory. rewrite Hrules.
  unfold_M. cbn. rewrite Hf. cbn. rewrite Hf.
  match goal with
  | |- context [mapM ?f records ?st] =>
      pose proof (respects_mapM org_rel f records
                    (organize_video_org_rel E rules _ downloadPath) st)
        as (_ & _ & Hst & _);
      destruct (mapM_returns (fun v v' => vm_id v' = vm_id v) f records st
                  (organize_video_returns E rules _ downloadPath))
        as (records' & Hret & _);
      destruct (mapM f records st) as [o o1]
  end.
  cbn in Hret, Hst. subst o. cbn. rewrite Hwrite. cbn. exact Hst.
Qed.

(** * Further properties of the download manager *)

Lemma reachable_mirrors_witness :
  mirrors (snd (downloadVideo quiet_env (asset 7 [rendition "hd" "https://cdn/7.mp4"])
                  (fetch_of 7 None)
                  (new_DownloadManager quiet_env "./downloads" 3 empty_world))).
Proof.
  apply reachable_mirrors. apply reachable_downloadVideo. apply reachable_new. reflexivity.
Defined.






(** X5: when the category directory cannot be created, a fetch fails with
    the message of that error before any request is made: nothing is
    touched. *)
Theorem downloadVideo_directory_failure (E : Env) (videoDetails : PexelsVideo)
  (options : DownloadOptions) (s : Sys) (videoFile : VideoFile) (msg : string) :
  video_id options ∉ downloadedVideos (this s) ->
  selectBestQuality (video_files videoDetails) (default hd (quality options)) = Some videoFile ->
  env_ensureDir E (category_dir (this s) options) = Throw msg ->
  exists r,
    downloadVideo E videoDetails options s = (Return r, s) /\
    dr_status r = failed /\
    dr_error r = Some msg.
Proof.
  intros Hnew Hsel Hdir. destruct s as [t w]. unfold category_dir in Hdir. cbn in Hnew, Hdir.
  unfold downloadVideo. unfold_M. cbn.
  rewrite bool_decide_eq_false_2 by exact Hnew. cbn. rewrite Hsel.
  destruct (truthy_string (filename options)); cbn; rewrite Hdir; cbn;
    eexists; (split; [reflexivity|]); split; reflexivity.
Qed.

Lemma downloadVideo_directory_failure_witness :
  let E := {| env_ensureDir := fun _ => Throw "EACCES: permission denied";
              env_get := fun _ => Return 2048; env_latency := fun _ => 1500;
              env_write := fun _ => Return tt; env_writeJson := fun _ => Return tt;
              env_move := fun _ _ => Return tt |} in
  let s := {| this := {| downloadPath := "./downloads"; maxConcurrent := 3;
                         downloadedVideos := ∅ |};
              world := empty_world |} in
  exists r,
    downloadVideo E (asset 7 [rendition "hd" "https://cdn/7.mp4"]) (fetch_of 7 None) s
    = (Return r, s) /\
    dr_status r = failed /\
    dr_error r = Some "EACCES: permission denied".
Proof.
  intros E s.
  apply (downloadVideo_directory_failure E (asset 7 [rendition "hd" "https://cdn/7.mp4"])
           (fetch_of 7 None) s (rendition "hd" "https://cdn/7.mp4")).
  - cbn. apply not_elem_of_empty.
  - reflexivity.
  - reflexivity.
Defined.

(** X6: when the request of the rendition fails (transport error or
    timeout), a fetch fails with the message of that error; the directory
    has been created and the request is on the log, but no file is written
    and neither the ledger file nor the manager changes. *)
Theorem downloadVideo_transport_failure (E : Env) (videoDetails : PexelsVideo)
  (options : DownloadOptions) (s : Sys) (videoFile : VideoFile) (msg : string) :
  video_id options ∉ downloadedVideos (this s) ->
  selectBestQuality (video_files videoDetails) (default hd (quality options)) = Some videoFile ->
  env_ensureDir E (category_dir (this s) options) = Return tt ->
  env_get E (vf_link videoFile) = Throw msg ->
  exists r s',
    downloadVideo E videoDetails options s = (Return r, s') /\
    dr_status r = failed /\
    dr_error r = Some msg /\
    disk (world s') = disk (world s) /\
    metadataFile (world s') = metadataFile (world s) /\
    this s' = this s /\
    transfers (world s') = (video_id options, vf_link videoFile) :: transfers (world s) /\
    dirs (world s') = {[category_dir (this s) options]} ∪ dirs (world s).
Proof.
  intros Hnew Hsel Hdir Hget. destruct s as [t w]. unfold category_dir in *. cbn in Hnew, Hdir.
  unfold downloadVideo. unfold_M. cbn.
  rewrite bool_decide_eq_false_2 by exact Hnew. cbn. rewrite Hsel.
  destruct (truthy_string (filename options)); cbn; rewrite Hdir; cbn; rewrite Hget; cbn;
    eexists; eexists; (split; [reflexivity|]); cbn; repeat split; reflexivity.
Qed.

Lemma downloadVideo_transport_failure_witness :
  let E := {| env_ensureDir := fun _ => Return tt;
              env_get := fun _ => Throw "timeout of 60000ms exceeded";
              env_latency := fun _ => 60000;
              env_write := fun _ => Return tt; env_writeJson := fun _ => Return tt;
              env_move := fun _ _ => Return tt |} in
  let s := {| this := {| downloadPath := "./downloads"; maxConcurrent := 3;
                         downloadedVideos := ∅ |};
              world := empty_world |} in
  exists r s',
    downloadVideo E (asset 7 [rendition "hd" "https://cdn/7.mp4"]) (fetch_of 7 None) s
    = (Return r, s') /\
    dr_status r = failed /\
    dr_error r = Some "timeout of 60000ms exceeded" /\
    disk (world s') = ∅.
Proof.
  intros E s.
  destruct (downloadVideo_transport_failure E (asset 7 [rendition "hd" "https://cdn/7.mp4"])
              (fetch_of 7 None) s (rendition "hd" "https://cdn/7.mp4")
              "timeout of 60000ms exceeded")
    as (r & s' & Hr & Hst & Herr & Hdisk & _).
  - cbn. apply not_elem_of_empty.
  - reflexivity.
  - reflexivity.
  - reflexivity.
  - exists r, s'. repeat split; assumption.
Defined.

(** ** File names *)

Lemma string_all_filter (p : ascii -> bool) (s : string) :
  string_all p (string_filter p s) = true.
Proof.
  induction s as [|c s IH]; [reflexivity|]. cbn.
  destruct (p c) eqn:Hp; [|exact IH]. cbn. now rewrite Hp.
Qed.

Lemma string_all_impl (p q : ascii -> bool) (s : string) :
  (forall c, p c = true -> q c = true) -> string_all p s = true -> string_all q s = true.
Proof.
  intros Hpq. induction s as [|c s IH]; [reflexivity|]. cbn.
  intros H. apply andb_true_iff in H as [Hc Hs]. now rewrite (Hpq c Hc), IH.
Qed.

Lemma string_all_replace_spaces (p : ascii -> bool) (in_run : bool) (s : string) :
  p "_"%char = true ->
  string_all (fun c => p c || is_space c) s = true ->
  string_all p (replace_spaces in_run s) = true.
Proof.
  intros Hu. revert in_run. induction s as [|c s IH]; intros in_run H; [reflexivity|].
  cbn in H. apply andb_true_iff in H as [Hc Hs]. cbn [replace_spaces].
  destruct (is_space c) eqn:Hsp.
  - destruct in_run; cbn; rewrite ?Hu; now apply IH.
  - rewrite orb_false_r in Hc. cbn. rewrite Hc. now apply IH.
Qed.

Lemma string_all_toLowerCase (p q : ascii -> bool) (s : string) :
  (forall c, p c = true -> q (lower_ascii c) = true) ->
  string_all p s = true -> string_all q (toLowerCase s) = true.
Proof.
  intros Hpq. induction s as [|c s IH]; [reflexivity|]. cbn.
  intros H. apply andb_true_iff in H as [Hc Hs]. now rewrite (Hpq c Hc), IH.
Qed.

Lemma lower_ascii_safe (c : ascii) :
  (is_alnum c || Ascii.eqb c "-" || Ascii.eqb c "_") = true -> safe_char (lower_ascii c) = true.
Proof.
  destruct c as [[] [] [] [] [] [] [] []]; vm_compute; intros H; first [reflexivity|discriminate H].
Qed.

(** X7: whatever the title, [sanitizeTitle] yields only the characters
    a-z, 0-9, underscore and hyphen (the hyphen is kept, upper case is
    folded, white space becomes underscores, everything else is dropped). *)
Theorem sanitizeTitle_safe (title : string) : string_all safe_char (sanitizeTitle title) = true.
Proof.
  unfold sanitizeTitle.
  apply (string_all_toLowerCase
           (fun c => is_alnum c || Ascii.eqb c "-" || Ascii.eqb c "_")); [apply lower_ascii_safe|].
  apply string_all_replace_spaces; [reflexivity|].
  eapply string_all_impl; [|apply string_all_filter].
  intros c. cbn beta. destruct (is_alnum c), (is_space c), (Ascii.eqb c "-"), (Ascii.eqb c "_");
    cbn; intros H; first [reflexivity|discriminate H].
Qed.

(** * Further properties of the organization manager *)

(** Where the pair that the loop of [categorizeVideo] ends on comes from:
    it is the start value, or an entry of the rule set that beats it. *)
Lemma fold_best_origin (allTags : string) (rules : OrganizationScheme)
  (best : option string * Z) :
  fold_left (best_step allTags) rules best = best \/
  exists c kws,
    In (c, kws) rules /\
    fold_left (best_step allTags) rules best = (Some c, keyword_hits allTags kws) /\
    snd best < keyword_hits allTags kws.
Proof.
  revert best. induction rules as [|[c0 kws0] rules IH]; intros best; [now left|].
  cbn [fold_left].
  assert (Hstep : best_step allTags best (c0, kws0)
                  = if snd best <? keyword_hits allTags kws0
                    then (Some c0, keyword_hits allTags kws0) else best).
  { unfold best_step. cbn [fst snd]. now rewrite calculateCategoryScore_hits. }
  rewrite Hstep.
  destruct (Z.ltb_spec (snd best) (keyword_hits allTags kws0)) as [Hlt|Hge].
  - right. destruct (IH (Some c0, keyword_hits allTags kws0)) as [Heq|(c & kws & Hin & Heq & Hb)].
    + exists c0, kws0. split; [now left|]. split; [exact Heq|exact Hlt].
    + exists c, kws. split; [now right|]. split; [exact Heq|]. cbn [snd] in Hb. lia.
  - destruct (IH best) as [Heq|(c & kws & Hin & Heq & Hb)]; [now left|].
    right. exists c, kws. split; [now right|]. now split.
Qed.

(** X8: under a tag-based scheme [categorizeVideo] never invents a
    category: the one it returns is a key of the rule set handed to it,
    and at least one keyword of that key matches the tags. *)
Theorem categorizeVideo_from_rules (video : VideoMetadata) (rules : OrganizationScheme)
  (scheme c : string) :
  scheme <> "duration" ->
  categorizeVideo video rules scheme = Some c ->
  exists kws,
    In (c, kws) rules /\
    0 < keyword_hits (toLowerCase (join " " (pm_tags (pexels_metadata video)))) kws.
Proof.
  intros Hs. rewrite categorizeVideo_tags by exact Hs. cbv zeta.
  set (allTags := toLowerCase (join " " (pm_tags (pexels_metadata video)))).
  destruct (fold_best_origin allTags rules (None, 0)) as [Heq|(c' & kws & Hin & Heq & Hb)];
    rewrite Heq; cbn [fst snd].
  - rewrite Z.ltb_irrefl. discriminate.
  - cbn [snd] in Hb. destruct (Z.ltb_spec 0 (keyword_hits allTags kws)); [|lia].
    intros [= <-]. now exists kws.
Qed.

Lemma categorizeVideo_from_rules_witness :
  exists kws,
    In ("calm", kws) (default [] (organizationSchemes "emotion")) /\
    0 < keyword_hits "slow water" kws.
Proof.
  apply (categorizeVideo_from_rules (tagged_video 1 ["Slow"; "Water"] 10)
           (default [] (organizationSchemes "emotion")) "emotion" "calm").
  - discriminate.
  - reflexivity.
Defined.

Lemma includes_empty (s : string) : includes s "" = true.
Proof. destruct s; reflexivity. Qed.

Lemma includes_in_empty (sub : string) : includes "" sub = true -> sub = "".
Proof. destruct sub; [reflexivity|discriminate]. Qed.

Lemma toLowerCase_empty (s : string) : toLowerCase s = "" -> s = "".
Proof. destruct s; [reflexivity|discriminate]. Qed.

Lemma keyword_hits_empty_keyword (allTags : string) (keywords : list string) :
  In "" keywords -> 0 < keyword_hits allTags keywords.
Proof.
  intros Hin. unfold keyword_hits.
  assert (H : In "" (List.filter (fun k => includes allTags (toLowerCase k)) keywords)).
  { apply List.filter_In. split; [exact Hin|]. apply includes_empty. }
  destruct (List.filter _ keywords); [destruct H|]. cbn [length]. lia.
Qed.

Lemma keyword_hits_no_tags (keywords : list string) :
  ~ In "" keywords -> keyword_hits "" keywords = 0.
Proof.
  intros Hn. unfold keyword_hits.
  destruct (List.filter (fun k => includes "" (toLowerCase k)) keywords) as [|k l] eqn:Hf;
    [reflexivity|].
  assert (H : In k (List.filter (fun k => includes "" (toLowerCase k)) keywords))
    by (rewrite Hf; now left).
  apply List.filter_In in H as [Hin Hk].
  apply includes_in_empty, toLowerCase_empty in Hk. now subst k.
Qed.

(** X9: the empty keyword matches everything. Under a tag-based scheme, a
    record without tags gets no category as long as no keyword of the rule
    set is the empty string; and a rule set made of one category with an
    empty string among its keywords puts every record in that category. *)
Theorem categorizeVideo_empty_keyword (video : VideoMetadata) (scheme : string) :
  scheme <> "duration" ->
  (forall rules,
     pm_tags (pexels_metadata video) = [] ->
     (forall entry, In entry rules -> ~ In "" (snd entry)) ->
     categorizeVideo video rules scheme = None) /\
  (forall c kws, In "" kws -> categorizeVideo video [(c, kws)] scheme = Some c).
Proof.
  intros Hs. split.
  - intros rules Htags Hkw. rewrite categorizeVideo_tags by exact Hs. cbv zeta.
    rewrite Htags. cbn [join String.concat toLowerCase].
    rewrite fold_best_keep; [reflexivity|].
    intros entry Hin. cbn [snd]. rewrite keyword_hits_no_tags; [lia|]. now apply Hkw.
  - intros c kws Hin. rewrite categorizeVideo_tags by exact Hs. cbv zeta.
    cbn [fold_left]. unfold best_step. cbn [fst snd]. rewrite calculateCategoryScore_hits.
    pose proof (keyword_hits_empty_keyword
                  (toLowerCase (join " " (pm_tags (pexels_metadata video)))) kws Hin) as Hpos.
    destruct (Z.ltb_spec 0 (keyword_hits
                (toLowerCase (join " " (pm_tags (pexels_metadata video)))) kws)); [|lia].
    cbn [fst snd].
    destruct (Z.ltb_spec 0 (keyword_hits
                (toLowerCase (join " " (pm_tags (pexels_metadata video)))) kws)); [reflexivity|lia].
Qed.

Lemma categorizeVideo_empty_keyword_witness :
  categorizeVideo (tagged_video 1 [] 10) (default [] (organizationSchemes "color")) "color" = None /\
  categorizeVideo (tagged_video 2 ["granite"] 10) [("misc", ["fog"; ""])] "custom" = Some "misc".
Proof.
  split.
  - apply (proj1 (categorizeVideo_empty_keyword (tagged_video 1 [] 10) "color"
                    ltac:(discriminate))); [reflexivity|].
    intros entry Hin Hk. cbn in Hin.
    repeat (destruct Hin as [<-|Hin]; [cbn in Hk; intuition discriminate|]). destruct Hin.
  - apply (proj2 (categorizeVideo_empty_keyword (tagged_video 2 ["granite"] 10) "custom"
                    ltac:(discriminate))). right. now left.
Defined.

(** X10: when [moveVideoToCategory] answers [true], the file is at
    [downloadPath/category/filename] with the bytes it had, its old path
    is free, the record carries the new path and the category and is
    otherwise the same; moving the record it returns to the same category
    again answers [false] and touches nothing. *)
Theorem moveVideoToCategory_moved (E : Env) (video v' : VideoMetadata)
  (category downloadPath : string) (w w' : World) :
  moveVideoToCategory E video category downloadPath w = (Return (true, v'), w') ->
  let newPath := path_join (path_join downloadPath category) (vm_filename video) in
  vm_local_path v' = newPath /\
  vm_category v' = Some category /\
  same_asset video v' /\
  is_Some (disk w !! vm_local_path video) /\
  disk w' !! newPath = disk w !! vm_local_path video /\
  disk w' !! vm_local_path video = None /\
  metadataFile w' = metadataFile w /\
  forall E', moveVideoToCategory E' v' category downloadPath w' = (Return (false, v'), w').
Proof.
  unfold moveVideoToCategory, same_asset. unfold_M.
  destruct (String.eqb_spec (vm_local_path video)
              (path_join (path_join downloadPath category) (vm_filename video)))
    as [Heq|Hne]; [discriminate|].
  intros Hrun.
  repeat (cbn in Hrun;
          match type of Hrun with
          | context [match ?x with _ => _ end] =>
              lazymatch x with
              | context [match _ with _ => _ end] => fail
              | _ => destruct x eqn:?
              end
          end);
    cbn in Hrun; try discriminate Hrun.
  injection Hrun as <- <-. cbn.
  repeat match goal with |- _ /\ _ => split end; try reflexivity.
  - eauto.
  - now rewrite lookup_insert_eq.
  - rewrite lookup_insert_ne by congruence. apply lookup_delete_eq.
  - intros E'. now rewrite String.eqb_refl.
Qed.

Lemma moveVideoToCategory_moved_witness :
  let video := tagged_video 7 ["water"] 10 in
  let w := set_disk {["./downloads/clip.mp4" := 1000]}
             (set_metadataFile (Json [video]) empty_world) in
  exists v' w',
    moveVideoToCategory quiet_env video "calm" "./downloads" w = (Return (true, v'), w') /\
    vm_local_path v' = "./downloads/calm/clip.mp4" /\
    disk w' !! "./downloads/calm/clip.mp4" = Some 1000 /\
    disk w' !! "./downloads/clip.mp4" = None.
Proof.
  intros video w.
  destruct (moveVideoToCategory quiet_env video "calm" "./downloads" w)
    as [[[[] v']|msg] w'] eqn:Hrun; try (vm_compute in Hrun; discriminate).
  exists v', w'. split; [reflexivity|].
  destruct (moveVideoToCategory_moved _ _ _ _ _ _ _ Hrun) as (Hp & _ & _ & _ & Hnew & Hold & _).
  split; [exact Hp|]. split; [|exact Hold].
  exact (eq_trans Hnew eq_refl).
Defined.

(** ** A run as a function of its loop *)

Lemma organizeByCategory_invalid (E : Env) (downloadPath : string)
  (options : OrganizationOptions) (w : World) :
  chosen_rules options = None ->
  organizeByCategory E downloadPath options w
  = (push_error ("Invalid organization scheme: " +:+ chosen_scheme options)
                (set_failed fresh_result), w).
Proof.
  unfold chosen_rules, chosen_scheme, organizeByCategory. intros ->. reflexivity.
Qed.

Lemma organizeByCategory_unreadable (E : Env) (downloadPath : string)
  (options : OrganizationOptions) (w : World) (rules : OrganizationScheme) :
  chosen_rules options = Some rules ->
  (metadataFile w = Missing ->
   organizeByCategory E downloadPath options w
   = (push_error "No downloaded videos found" (set_failed fresh_result), w)) /\
  (metadataFile w = Corrupt ->
   exists msg, organizeByCategory E downloadPath options w
               = (push_error msg (set_failed fresh_result), w)).
Proof.
  unfold chosen_rules, chosen_scheme, organizeByCategory. intros ->.
  destruct w as [f d ds tr cl]. unfold_M. cbn. split; intros ->; cbn; [reflexivity|].
  eexists. reflexivity.
Qed.

(** With a valid scheme and a readable ledger, the result of a run is that
    of its loop, followed by the write of the ledger. *)
Lemma organizeByCategory_loop (E : Env) (downloadPath : string)
  (options : OrganizationOptions) (w : World) (rules : OrganizationScheme)
  (records : list VideoMetadata) :
  chosen_rules options = Some rules ->
  metadataFile w = Json records ->
  exists records' o,
    mapM (organize_video E rules (chosen_scheme options) downloadPath) records
         {| result := fresh_result; org_world := w |} = (Return records', o) /\
    Forall2 same_asset records records' /\
    organizeByCategory E downloadPath options w
    = match env_writeJson E records' with
      | Return _ => (result o, set_metadataFile (Json records') (org_world o))
      | Throw msg => (push_error msg (set_failed (result o)), org_world o)
      end.
Proof.
  unfold chosen_rules, chosen_scheme, organizeByCategory, fresh_result. intros -> Hf.
  set (scheme := default "emotion" (truthy_string (organization_scheme options))).
  destruct (mapM_returns same_asset (organize_video E rules scheme downloadPath) records
              {| result := {| status := success; moved_files := 0;
                              categories_created := []; errors := [] |};
                 org_world := w |})
    as (records' & Hret & Hsame).
  { intros video [r w0]. unfold organize_video, moveVideoToCategory, same_asset. unfold_M.
    crunch; eexists; (split; [reflexivity|]); repeat split. }
  destruct (mapM _ records _) as [o o1] eqn:Hm. cbn in Hret. subst o.
  exists records', o1. split; [reflexivity|]. split; [exact Hsame|].
  unfold_M. cbn. rewrite Hf. cbn. rewrite Hf. rewrite Hm.
  destruct o1 as [r1 w1]. cbn. destruct (env_writeJson E records'); reflexivity.
Qed.

#[local] Instance count_rel_preorder : PreOrder count_rel.
Proof.
  split.
  - intros o. unfold count_rel. repeat split; [lia|lia|tauto].
  - intros o1 o2 o3 (H1 & H2 & H3) (K1 & K2 & K3). unfold count_rel.
    split; [lia|]. split; [lia|tauto].
Qed.

Lemma existsb_eqb_false (c : string) (l : list string) :
  existsb (String.eqb c) l = false -> c ∉ l.
Proof.
  intros H Hin. apply list_elem_of_In in Hin.
  assert (existsb (String.eqb c) l = true); [|congruence].
  apply existsb_exists. exists c. split; [exact Hin|apply String.eqb_refl].
Qed.

Lemma count_move_count_rel (category : string) (r : OrganizationResult) (w w' : World) :
  count_rel {| result := r; org_world := w |}
            {| result := count_move category r; org_world := w' |}.
Proof.
  unfold count_rel, count_move. cbn.
  destruct (existsb (String.eqb category) (categories_created r)) eqn:Hex.
  - split; [lia|]. split; [lia|tauto].
  - split; [lia|]. split; [rewrite length_app; cbn; lia|].
    intros Hnd. apply NoDup_app. split; [exact Hnd|]. split; [|apply NoDup_singleton].
    intros x Hx Hx'. apply list_elem_of_singleton in Hx'. subst x.
    now apply (existsb_eqb_false category (categories_created r)).
Qed.

Lemma organize_video_count_rel (E : Env) (rules : OrganizationScheme)
  (scheme downloadPath : string) (video : VideoMetadata) :
  respects count_rel (organize_video E rules scheme downloadPath video).
Proof.
  intros [r w]. unfold organize_video, moveVideoToCategory. unfold_M.
  crunch; first [apply count_move_count_rel | reflexivity | idtac].
  all: unfold count_rel; cbn; split; [lia|]; split; [lia|tauto].
Qed.

(** A turn moves at most one file. *)
Lemma organize_video_moves_one (E : Env) (rules : OrganizationScheme)
  (scheme downloadPath : string) (video : VideoMetadata) (o : Org) :
  moved_files (result (snd (organize_video E rules scheme downloadPath video o)))
  <= moved_files (result o) + 1.
Proof.
  destruct o as [r w]. unfold organize_video, moveVideoToCategory, count_move. unfold_M.
  crunch; lia.
Qed.

Lemma mapM_cost {S A B : Type} (g : S -> Z) (f : A -> M S B) (l : list A) (s : S) :
  (forall x s, g (snd (f x s)) <= g s + 1) ->
  g (snd (mapM f l s)) <= g s + Z.of_nat (length l).
Proof.
  intros Hf. revert s. induction l as [|x l IH]; intros s; cbn [mapM length].
  - cbn. lia.
  - unfold bind at 1. specialize (Hf x s). destruct (f x s) as [[y|msg] s1]; cbn in Hf |- *;
      [|lia].
    unfold bind at 1. specialize (IH s1). destruct (mapM f l s1) as [[ys|msg] s2];
      cbn in IH |- *; lia.
Qed.

(** X11: the counters of a run. The number of moved files is at least 0
    and at most the number of records of the ledger; the categories
    reported are distinct and there are at most as many of them as moved
    files. *)
Theorem organizeByCategory_counts (E : Env) (downloadPath : string)
  (options : OrganizationOptions) (w : World) :
  let r := fst (organizeByCategory E downloadPath options w) in
  0 <= moved_files r <= Z.of_nat (length (ledger_records w)) /\
  Z.of_nat (length (categories_created r)) <= moved_files r /\
  NoDup (categories_created r).
Proof.
  cbv zeta. destruct (chosen_rules options) as [rules|] eqn:Hrules.
  2: { rewrite organizeByCategory_invalid by exact Hrules. cbn.
       split; [lia|]. split; [lia|apply NoDup_nil_2]. }
  unfold ledger_records.
  destruct (metadataFile w) as [| |records] eqn:Hf.
  - rewrite (proj1 (organizeByCategory_unreadable E downloadPath options w rules Hrules) Hf).
    cbn. split; [lia|]. split; [lia|apply NoDup_nil_2].
  - destruct (proj2 (organizeByCategory_unreadable E downloadPath options w rules Hrules) Hf)
      as (msg & ->).
    cbn. split; [lia|]. split; [lia|apply NoDup_nil_2].
  - destruct (organizeByCategory_loop E downloadPath options w rules records Hrules Hf)
      as (records' & o & Hm & _ & ->).
    pose proof (respects_mapM count_rel _ records
                  (organize_video_count_rel E rules (chosen_scheme options) downloadPath)
                  {| result := fresh_result; org_world := w |}) as (Hmono & Hcats & Hnd).
    pose proof (mapM_cost (fun o => moved_files (result o)) _ records
                  {| result := fresh_result; org_world := w |}
                  (organize_video_moves_one E rules (chosen_scheme options) downloadPath))
      as Hcost.
    rewrite Hm in Hmono, Hcats, Hnd, Hcost. cbn in Hmono, Hcats, Hnd, Hcost.
    specialize (Hnd (NoDup_nil_2)).
    destruct (env_writeJson E records'); cbn; (split; [lia|]); (split; [lia|exact Hnd]).
Qed.




#[local] Instance files_rel_preorder : PreOrder files_rel.
Proof.
  split.
  - intros o. reflexivity.
  - intros o1 o2 o3 H1 H2. unfold files_rel in *. congruence.
Qed.

(** Renaming a file keeps the number of files. *)
Lemma map_size_move (d : gmap string Z) (src dest : string) (z : Z) :
  d !! src = Some z -> d !! dest = None ->
  size (<[dest := z]> (base.delete src d)) = size d.
Proof.
  intros Hsrc Hdest.
  rewrite map_size_insert_None by (apply lookup_delete_None; now right).
  rewrite map_size_delete_Some by eauto.
  assert (size d <> 0%nat); [|lia].
  apply map_size_non_empty_iff. intros ->. now rewrite lookup_empty in Hsrc.
Qed.

Lemma organize_video_files_rel (E : Env) (rules : OrganizationScheme)
  (scheme downloadPath : string) (video : VideoMetadata) :
  respects files_rel (organize_video E rules scheme downloadPath video).
Proof.
  intros [r w]. unfold organize_video, moveVideoToCategory, files_rel. unfold_M.
  crunch; first [reflexivity | now apply map_size_move].
Qed.

(** X13: a run of [organizeByCategory] neither creates nor deletes
    anything: the number of files on disk is as before, no transfer is
    made, and the ledger holds, in the same order, records of the same
    assets (same id, file name, size, date and provider attributes; only
    path and category may differ). *)
Theorem organizeByCategory_keeps_assets (E : Env) (downloadPath : string)
  (options : OrganizationOptions) (w : World) :
  let w' := snd (organizeByCategory E downloadPath options w) in
  size (disk w') = size (disk w) /\
  transfers w' = transfers w /\
  Forall2 same_asset (ledger_records w) (ledger_records w').
Proof.
  cbv zeta.
  assert (Hrefl : forall l, Forall2 same_asset l l).
  { intros l. induction l; constructor; [repeat split|assumption]. }
  destruct (chosen_rules options) as [rules|] eqn:Hrules.
  2: { rewrite organizeByCategory_invalid by exact Hrules. cbn. repeat split. apply Hrefl. }
  destruct (metadataFile w) as [| |records] eqn:Hf.
  - rewrite (proj1 (organizeByCategory_unreadable E downloadPath options w rules Hrules) Hf).
    cbn. repeat split. apply Hrefl.
  - destruct (proj2 (organizeByCategory_unreadable E downloadPath options w rules Hrules) Hf)
      as (msg & ->).
    cbn. repeat split. apply Hrefl.
  - destruct (organizeByCategory_loop E downloadPath options w rules records Hrules Hf)
      as (records' & o & Hm & Hsame & ->).
    pose proof (respects_mapM files_rel _ records
                  (organize_video_files_rel E rules (chosen_scheme options) downloadPath)
                  {| result := fresh_result; org_world := w |}) as Hfiles.
    pose proof (respects_mapM org_rel _ records
                  (organize_video_org_rel E rules (chosen_scheme options) downloadPath)
                  {| result := fresh_result; org_world := w |}) as (Hled & Htr & _).
    rewrite Hm in Hfiles, Hled, Htr. unfold files_rel in Hfiles. cbn in Hfiles, Hled, Htr.
    unfold ledger_records at 1. rewrite Hf.
    destruct (env_writeJson E records'); cbn.
    + split; [exact Hfiles|]. split; [exact Htr|exact Hsame].
    + split; [exact Hfiles|]. split; [exact Htr|].
      unfold ledger_records. rewrite Hled, Hf. apply Hrefl.
Qed.

(** * Properties of the read-only operations *)







(** ** Sorting *)

Lemma sort_insert_Permutation {A : Type} (cmp : A -> A -> comparison) (x : A) (l : list A) :
  sort_insert cmp x l ≡ₚ x :: l.
Proof.
  induction l as [|y l IH]; cbn; [reflexivity|].
  destruct (cmp x y); try reflexivity. rewrite IH. apply Permutation_swap.
Qed.

Lemma Array_sort_Permutation {A : Type} (cmp : A -> A -> comparison) (l : list A) :
  Array_sort cmp l ≡ₚ l.
Proof.
  induction l as [|x l IH]; cbn; [reflexivity|].
  rewrite sort_insert_Permutation. now rewrite IH.
Qed.

Lemma sort_insert_sorted {A : Type} (cmp : A -> A -> comparison) (x : A) (l : list A) :
  consistent cmp ->
  StronglySorted (may_precede cmp) l ->
  StronglySorted (may_precede cmp) (sort_insert cmp x l).
Proof.
  intros [Htot Htrans]. induction l as [|y l IH]; intros Hs; cbn.
  - repeat constructor.
  - apply StronglySorted_inv in Hs as [Hl Hy].
    destruct (cmp x y) eqn:Hxy.
    + constructor; [now constructor|]. constructor; [unfold may_precede; congruence|].
      eapply Forall_impl; [exact Hy|]. intros z Hz. apply (Htrans x y z); [congruence|exact Hz].
    + constructor; [now constructor|]. constructor; [unfold may_precede; congruence|].
      eapply Forall_impl; [exact Hy|]. intros z Hz. apply (Htrans x y z); [congruence|exact Hz].
    + constructor; [now apply IH|].
      apply Forall_forall. intros z Hz.
      rewrite sort_insert_Permutation in Hz.
      apply elem_of_cons in Hz as [->|Hz]; [now apply Htot|].
      rewrite Forall_forall in Hy. now apply Hy.
Qed.

Lemma Array_sort_sorted {A : Type} (cmp : A -> A -> comparison) (l : list A) :
  consistent cmp -> StronglySorted (may_precede cmp) (Array_sort cmp l).
Proof.
  intros Hc. induction l as [|x l IH]; cbn; [constructor|]. now apply sort_insert_sorted.
Qed.

(** Elements that the comparator never tells apart stay as they are. *)
Lemma Array_sort_Eq {A : Type} (l : list A) : Array_sort (fun _ _ => Eq) l = l.
Proof.
  unfold Array_sort. induction l as [|x l IH]; cbn [fold_right]; [reflexivity|].
  rewrite IH. now destruct l.
Qed.

Lemma StronglySorted_take {A : Type} (R : A -> A -> Prop) (n : nat) (l : list A) :
  StronglySorted R l -> StronglySorted R (take n l).
Proof.
  intros Hs. revert n. induction Hs as [|x l Hs IH Hx]; intros [|n]; cbn; try constructor.
  - apply IH.
  - apply Forall_forall. intros y Hy. rewrite Forall_forall in Hx. apply Hx.
    now apply (elem_of_submseteq _ _ _ Hy (submseteq_take l n)).
Qed.

Lemma StronglySorted_slice0 {A : Type} (R : A -> A -> Prop) (n : Z) (l : list A) :
  StronglySorted R l -> StronglySorted R (slice0 l n).
Proof. intros Hs. unfold slice0. destruct (0 <=? n); now apply StronglySorted_take. Qed.

Lemma compare_by_Z_consistent {A : Type} (key : A -> Z) :
  consistent (fun a b => key b ?= key a).
Proof.
  split.
  - intros a b H Hb. apply Z.compare_gt_iff in H, Hb. lia.
  - intros a b c Hab Hbc Hac. apply Z.compare_gt_iff in Hac.
    apply Z.compare_ngt_iff in Hab, Hbc. lia.
Qed.

Lemma compare_by_Q_consistent {A : Type} (key : A -> Q) :
  consistent (fun a b => (key b ?= key a)%Q).
Proof.
  split.
  - intros a b H Hb. apply Qgt_alt in H, Hb. exact (Qlt_irrefl _ (Qlt_trans _ _ _ H Hb)).
  - intros a b c Hab Hbc Hac. apply Qgt_alt in Hac.
    assert (Hba : (key b <= key a)%Q).
    { apply Qnot_lt_le. intros H. apply Hab. now apply Qgt_alt. }
    assert (Hcb : (key c <= key b)%Q).
    { apply Qnot_lt_le. intros H. apply Hbc. now apply Qgt_alt. }
    exact (Qlt_not_le _ _ Hac (Qle_trans _ _ _ Hcb Hba)).
Qed.

Lemma list_compare_consistent (localeCompare : string -> string -> comparison)
  (sortBy : string) :
  (sortBy = "name" -> consistent localeCompare) ->
  consistent (list_compare localeCompare sortBy).
Proof.
  intros Hname. unfold list_compare.
  destruct (String.eqb sortBy "date"); [apply (compare_by_Z_consistent vm_download_date)|].
  destruct (String.eqb sortBy "size"); [apply (compare_by_Z_consistent vm_file_size)|].
  destruct (String.eqb sortBy "duration");
    [apply (compare_by_Q_consistent (fun v => pm_duration (pexels_metadata v)))|].
  destruct (String.eqb_spec sortBy "name") as [Hn|_].
  - destruct (Hname Hn) as [Htot Htrans]. split.
    + intros a b. apply Htot.
    + intros a b c. apply Htrans.
  - split; intros; discriminate.
Qed.

(** What [listDownloaded] returns when the ledger can be read. *)
Lemma listDownloaded_eq (localeCompare : string -> string -> comparison)
  (options : ListOptions) (w : World) :
  listDownloaded localeCompare options w
  = (Return (match metadataFile w with
             | Json _ =>
                 slice0 (Array_sort (list_compare localeCompare
                                       (default "date" (truthy_string (sort_by options))))
                                    (listed_records options w))
                        (default 50 (truthy_Z (limit options)))
             | _ => []
             end), w).
Proof.
  destruct w as [f d ds tr cl]. unfold listDownloaded, listed_records, ledger_records.
  unfold_M. cbn. destruct f; reflexivity.
Qed.

Lemma StronglySorted_impl {A : Type} (R R' : A -> A -> Prop) (l : list A) :
  (forall a b, R a b -> R' a b) -> StronglySorted R l -> StronglySorted R' l.
Proof.
  intros HR. induction 1 as [|x l Hs IH Hx]; constructor; [exact IH|].
  eapply Forall_impl; [exact Hx|]. intros y. apply HR.
Qed.

Lemma listed_records_category (options : ListOptions) (w : World) (video : VideoMetadata) :
  video ∈ listed_records options w ->
  video ∈ ledger_records w /\
  forall c, truthy_string (list_category options) = Some c -> vm_category video = Some c.
Proof.
  unfold listed_records. destruct (truthy_string (list_category options)) as [c|].
  - intros H. apply list_elem_of_In, List.filter_In in H as [Hin Hc].
    split; [now apply list_elem_of_In|]. intros c' [= <-].
    unfold in_category in Hc. destruct (vm_category video) as [c0|]; [|discriminate].
    apply String.eqb_eq in Hc. now subst c0.
  - intros H. split; [exact H|]. intros c [=].
Qed.

(** X16: [listDownloaded] only reads. It never throws and leaves the world
    as it is; what it returns is taken from the records of the ledger
    (none, when the file is missing or unreadable), each at most as often
    as it is there, all of the category asked for when one is given; with
    a positive limit (50 when none or zero is given) there are at most that
    many, and when the limit is not below the number of matching records,
    all of them are returned. *)
Theorem listDownloaded_reads (localeCompare : string -> string -> comparison)
  (options : ListOptions) (w : World) :
  exists l,
    listDownloaded localeCompare options w = (Return l, w) /\
    l ⊆+ listed_records options w /\
    (forall video,
       video ∈ l ->
       video ∈ ledger_records w /\
       forall c, truthy_string (list_category options) = Some c -> vm_category video = Some c) /\
    (0 < default 50 (truthy_Z (limit options)) ->
     Z.of_nat (length l) <= default 50 (truthy_Z (limit options))) /\
    (Z.of_nat (length (listed_records options w)) <= default 50 (truthy_Z (limit options)) ->
     l ≡ₚ listed_records options w).
Proof.
  rewrite listDownloaded_eq. eexists. split; [reflexivity|].
  set (n := default 50 (truthy_Z (limit options))).
  set (cmp := list_compare localeCompare (default "date" (truthy_string (sort_by options)))).
  assert (Hsub : match metadataFile w with
                 | Json _ => slice0 (Array_sort cmp (listed_records options w)) n
                 | _ => []
                 end ⊆+ listed_records options w).
  { destruct (metadataFile w); try apply submseteq_nil_l.
    unfold slice0. destruct (0 <=? n);
      (etransitivity; [apply submseteq_take|apply Permutation_submseteq, Array_sort_Permutation]). }
  split; [exact Hsub|]. split; [|split].
  - intros video Hin. apply listed_records_category.
    exact (elem_of_submseteq _ _ _ Hin Hsub).
  - intros Hn. destruct (metadataFile w); cbn [length]; try lia.
    unfold slice0. destruct (Z.leb_spec 0 n); [|lia]. rewrite length_take. lia.
  - intros Hlen. destruct (metadataFile w) eqn:Hf.
    + unfold listed_records, ledger_records. rewrite Hf.
      destruct (truthy_string (list_category options)); reflexivity.
    + unfold listed_records, ledger_records. rewrite Hf.
      destruct (truthy_string (list_category options)); reflexivity.
    + unfold slice0. destruct (Z.leb_spec 0 n); [|lia].
      rewrite take_ge; [apply Array_sort_Permutation|].
      rewrite (Permutation_length (Array_sort_Permutation cmp _)). lia.
Qed.

(** X17: the order of a listing. Sorted by date (also when no key is
    given) it goes from the latest download to the earliest; by size, from
    the largest file to the smallest; by duration, from the longest to the
    shortest; by name, in the order of [localeCompare], provided that this
    is a consistent order. With any other key the records come in the
    order of the ledger. *)
Theorem listDownloaded_sorted (localeCompare : string -> string -> comparison)
  (options : ListOptions) (w : World) (l : list VideoMetadata) :
  fst (listDownloaded localeCompare options w) = Return l ->
  let sortBy := default "date" (truthy_string (sort_by options)) in
  (sortBy = "date" ->
   StronglySorted (fun a b => vm_download_date b <= vm_download_date a) l) /\
  (sortBy = "size" ->
   StronglySorted (fun a b => vm_file_size b <= vm_file_size a) l) /\
  (sortBy = "duration" ->
   StronglySorted (fun a b => (pm_duration (pexels_metadata b)
                               <= pm_duration (pexels_metadata a))%Q) l) /\
  (sortBy = "name" -> consistent localeCompare ->
   StronglySorted (fun a b => localeCompare (vm_filename a) (vm_filename b) <> Gt) l) /\
  (~ In sortBy ["date"; "size"; "duration"; "name"] ->
   l = slice0 (listed_records options w) (default 50 (truthy_Z (limit options)))).
Proof.
  rewrite listDownloaded_eq. cbn [fst]. intros [= <-]. cbv zeta.
  set (sortBy := default "date" (truthy_string (sort_by options))).
  assert (Hsorted : (sortBy = "name" -> consistent localeCompare) ->
                    StronglySorted (may_precede (list_compare localeCompare sortBy))
                      match metadataFile w with
                      | Json _ => slice0 (Array_sort (list_compare localeCompare sortBy)
                                            (listed_records options w))
                                         (default 50 (truthy_Z (limit options)))
                      | _ => []
                      end).
  { intros Hname. destruct (metadataFile w); try constructor.
    apply StronglySorted_slice0, Array_sort_sorted. now apply list_compare_consistent. }
  split; [|split; [|split; [|split]]].
  - intros Hk. eapply StronglySorted_impl; [|apply Hsorted; rewrite Hk; discriminate].
    intros a b. unfold may_precede, list_compare. rewrite Hk. cbn. intros H.
    exact H.
  - intros Hk. eapply StronglySorted_impl; [|apply Hsorted; rewrite Hk; discriminate].
    intros a b. unfold may_precede, list_compare. rewrite Hk. cbn. intros H.
    exact H.
  - intros Hk. eapply StronglySorted_impl; [|apply Hsorted; rewrite Hk; discriminate].
    intros a b. unfold may_precede, list_compare. rewrite Hk. cbn. intros H.
    apply Qnot_lt_le. intros Hlt. apply H. now apply Qgt_alt.
  - intros Hk Hc. eapply StronglySorted_impl; [|apply Hsorted; intros _; exact Hc].
    intros a b. unfold may_precede, list_compare. rewrite Hk. cbn. tauto.
  - intros Hk.
    assert (Hcmp : list_compare localeCompare sortBy = fun _ _ => Eq).
    { unfold list_compare.
      destruct (String.eqb_spec sortBy "date"); [exfalso; apply Hk; cbn; intuition congruence|].
      destruct (String.eqb_spec sortBy "size"); [exfalso; apply Hk; cbn; intuition congruence|].
      destruct (String.eqb_spec sortBy "duration");
        [exfalso; apply Hk; cbn; intuition congruence|].
      destruct (String.eqb_spec sortBy "name"); [exfalso; apply Hk; cbn; intuition congruence|].
      reflexivity. }
    rewrite Hcmp, Array_sort_Eq.
    destruct (metadataFile w) eqn:Hf; try reflexivity;
      (assert (Hnil : listed_records options w = []);
       [unfold listed_records, ledger_records; rewrite Hf;
        destruct (truthy_string (list_category options)); reflexivity|]);
      rewrite Hnil; unfold slice0; destruct (0 <=? _); now rewrite take_nil.
Qed.

Lemma listDownloaded_reads_witness :
  let w := set_metadataFile
             (Json [sized_video 1 300 (Some "calm"); sized_video 2 100 None;
                    sized_video 3 500 (Some "calm")]) empty_world in
  let options := {| list_category := Some "calm"; sort_by := Some "size"; limit := Some 5 |} in
  exists l,
    listDownloaded (fun _ _ => Eq) options w = (Return l, w) /\
    l ≡ₚ [sized_video 1 300 (Some "calm"); sized_video 3 500 (Some "calm")].
Proof.
  intros w options.
  destruct (listDownloaded_reads (fun _ _ => Eq) options w) as (l & Hrun & _ & _ & _ & Hall).
  exists l. split; [exact Hrun|]. apply Hall. vm_compute. discriminate.
Defined.

Lemma listDownloaded_sorted_witness :
  let w := set_metadataFile
             (Json [sized_video 1 300 None; sized_video 2 100 None; sized_video 3 500 None])
             empty_world in
  let options := {| list_category := None; sort_by := Some "size"; limit := Some 2 |} in
  fst (listDownloaded (fun _ _ => Eq) options w)
  = Return [sized_video 3 500 None; sized_video 1 300 None] /\
  StronglySorted (fun a b => vm_file_size b <= vm_file_size a)
                 [sized_video 3 500 None; sized_video 1 300 None].
Proof.
  intros w options. split; [reflexivity|].
  apply (proj1 (proj2 (listDownloaded_sorted (fun _ _ => Eq) options w _ eq_refl))).
  reflexivity.
Defined.

(** * Further properties of the cache *)

(** X18: [has] and [get] agree. Both leave the cache in the same state
    (an expired entry is dropped by either), and [has] answers [true]
    exactly when [get] returns the stored value, that is when the key has
    an entry whose expiry is not before [now]. *)
Theorem has_agrees_with_get {T : Type} (key : string) (now : Z) (c : CacheManager.t T) :
  snd (CacheManager.has key now c) = snd (CacheManager.get key now c) /\
  (fst (CacheManager.has key now c) = true <->
   exists entry,
     CacheManager.cache c !! key = Some entry /\
     now <= CacheManager.expiresAt entry /\
     fst (CacheManager.get key now c) = Some (CacheManager.data entry)).
Proof.
  unfold CacheManager.has, CacheManager.get.
  destruct (CacheManager.cache c !! key) as [entry|]; cbn.
  - destruct (Z.ltb_spec (CacheManager.expiresAt entry) now); cbn.
    + split; [reflexivity|]. split; [discriminate|]. intros (e & [= <-] & Hle & _). lia.
    + split; [reflexivity|]. split; [|reflexivity]. intros _. now exists entry.
  - split; [reflexivity|]. split; [discriminate|]. intros (e & [=] & _).
Qed.

(** [delete] answers whether the key had an entry, expired or not;
    afterwards [get] on the key finds nothing, and [get] on any other key
    returns what it returned before. *)
Lemma delete_removes {T : Type} (key : string) (c : CacheManager.t T) :
  (fst (CacheManager.delete key c) = true <-> is_Some (CacheManager.cache c !! key)) /\
  (forall now,
     CacheManager.get key now (snd (CacheManager.delete key c))
     = (None, snd (CacheManager.delete key c))) /\
  (forall other now,
     other <> key ->
     fst (CacheManager.get other now (snd (CacheManager.delete key c)))
     = fst (CacheManager.get other now c)).
Proof.
  unfold CacheManager.delete. cbn. split; [apply bool_decide_eq_true|]. split.
  - intros now. unfold CacheManager.get. cbn. now rewrite lookup_delete_eq.
  - intros other now Hne. unfold CacheManager.get. cbn.
    rewrite lookup_delete_ne by congruence.
    destruct (CacheManager.cache c !! other) as [entry|]; [|reflexivity].
    now destruct (CacheManager.expiresAt entry <? now).
Qed.

Lemma cleanup_lookup {T : Type} (key : string) (now : Z) (c : CacheManager.t T) :
  CacheManager.cache (CacheManager.cleanup now c) !! key
  = match CacheManager.cache c !! key with
    | Some entry => if CacheManager.expiresAt entry <? now then None else Some entry
    | None => None
    end.
Proof.
  unfold CacheManager.cleanup. cbn.
  destruct (CacheManager.cache c !! key) as [entry|] eqn:Hk.
  - destruct (Z.ltb_spec (CacheManager.expiresAt entry) now).
    + apply map_lookup_filter_None. right. intros e He. rewrite Hk in He.
      injection He as <-. cbn. lia.
    + apply map_lookup_filter_Some. split; [exact Hk|]. cbn. lia.
  - apply map_lookup_filter_None. now left.
Qed.

(** X19: the periodic sweep cannot be observed through [get]. After a
    sweep at time [now], every entry left is unexpired at [now] and was
    there before; and at [now] or any later time, [get] on any key returns
    what it would have returned without the sweep. *)
Theorem cleanup_unobservable {T : Type} (now : Z) (c : CacheManager.t T) :
  (forall key entry,
     CacheManager.cache (CacheManager.cleanup now c) !! key = Some entry ->
     now <= CacheManager.expiresAt entry /\ CacheManager.cache c !! key = Some entry) /\
  (forall key t,
     now <= t ->
     fst (CacheManager.get key t (CacheManager.cleanup now c))
     = fst (CacheManager.get key t c)) /\
  CacheManager.duration (CacheManager.cleanup now c) = CacheManager.duration c.
Proof.
  split; [|split; [|reflexivity]].
  - intros key entry. rewrite cleanup_lookup.
    destruct (CacheManager.cache c !! key) as [e|]; [|discriminate].
    destruct (Z.ltb_spec (CacheManager.expiresAt e) now); [discriminate|].
    intros [= <-]. split; [lia|reflexivity].
  - intros key t Ht. unfold CacheManager.get. rewrite cleanup_lookup.
    destruct (CacheManager.cache c !! key) as [e|]; [|reflexivity].
    destruct (Z.ltb_spec (CacheManager.expiresAt e) now) as [Hlt|Hge].
    + destruct (Z.ltb_spec (CacheManager.expiresAt e) t); [reflexivity|lia].
    + now destruct (CacheManager.expiresAt e <? t).
Qed.

Lemma cleanup_unobservable_witness :
  let c := CacheManager.set "b" 2 (Some 100) 0
             (CacheManager.set "a" 1 (Some 1) 0 (CacheManager.new 3600)) in
  fst (CacheManager.get "a" 5000 (CacheManager.cleanup 2000 c)) = None /\
  fst (CacheManager.get "b" 5000 (CacheManager.cleanup 2000 c)) = Some 2.
Proof.
  intros c.
  destruct (cleanup_unobservable 2000 c) as (_ & Hget & _).
  split; (rewrite Hget; [reflexivity|lia]).
Defined.

(** X20: the remaining lifetime reported by [getEntryInfo] is never
    negative, and a positive one is kept: until [now + ttl], [get] returns
    the value. An entry that has expired but has not been swept or looked
    up is still reported to exist, with a lifetime of zero, although [has]
    answers [false] for it. *)
Theorem getEntryInfo_ttl {T : Type} (key : string) (now : Z) (c : CacheManager.t T)
  (entry : CacheManager.CacheEntry T) :
  CacheManager.cache c !! key = Some entry ->
  exists ttl,
    CacheManager.info_ttl (CacheManager.getEntryInfo key now c) = Some ttl /\
    CacheManager.info_exists (CacheManager.getEntryInfo key now c) = true /\
    0 <= ttl /\
    (0 < ttl ->
     forall t, t <= now + ttl ->
               fst (CacheManager.get key t c) = Some (CacheManager.data entry)) /\
    (fst (CacheManager.has key now c) = false -> ttl = 0).
Proof.
  intros Hk. unfold CacheManager.getEntryInfo, CacheManager.get, CacheManager.has.
  rewrite Hk. cbn. eexists. split; [reflexivity|]. split; [reflexivity|].
  split; [lia|]. split.
  - intros Hpos t Ht. destruct (Z.ltb_spec (CacheManager.expiresAt entry) t); [lia|reflexivity].
  - destruct (Z.ltb_spec (CacheManager.expiresAt entry) now); [lia|discriminate].
Qed.

Lemma getEntryInfo_ttl_witness :
  let c := CacheManager.set "a" 1 (Some 1) 0 (CacheManager.new 3600) in
  CacheManager.info_exists (CacheManager.getEntryInfo "a" 5000 c) = true /\
  CacheManager.info_ttl (CacheManager.getEntryInfo "a" 5000 c) = Some 0 /\
  fst (CacheManager.has "a" 5000 c) = false.
Proof.
  intros c.
  destruct (getEntryInfo_ttl "a" 5000 c
              {| CacheManager.data := 1; CacheManager.timestamp := 0;
                 CacheManager.expiresAt := 1000 |} eq_refl)
    as (ttl & Httl & Hex & _ & _ & Hzero).
  split; [exact Hex|]. split; [|reflexivity].
  rewrite Httl. f_equal. apply Hzero. reflexivity.
Defined.

(** * Properties of the API client *)

Lemma Math_ceil_div_bounds (x d : Z) :
  0 < d -> x <= d * Math_ceil_div x d < x + d.
Proof.
  intros Hd. unfold Math_ceil_div.
  pose proof (Z.mul_div_le (- x) d Hd). pose proof (Z.mul_succ_div_gt (- x) d Hd). lia.
Qed.

Lemma Math_ceil_div_pos (x d : Z) : 0 < d -> (1 <= Math_ceil_div x d <-> 0 < x).
Proof. intros Hd. pose proof (Math_ceil_div_bounds x d Hd). nia. Qed.

Lemma checkRateLimit_throws_iff (now1 now2 : Z) (rateLimit : PexelsClient.RateLimit) :
  (exists msg, PexelsClient.checkRateLimit now1 now2 rateLimit = Throw msg) <->
  exists remaining resetTime,
    PexelsClient.remaining rateLimit = Some remaining /\
    PexelsClient.resetTime rateLimit = Some resetTime /\
    remaining <= 0 /\ now1 < resetTime.
Proof.
  unfold PexelsClient.checkRateLimit.
  destruct rateLimit as [[remaining|] [resetTime|]]; cbn.
  2-4: (split; [intros [msg H]; try destruct (_ && _) in H; discriminate
               |intros (? & ? & ? & ? & _); discriminate]).
  destruct (Z.leb_spec remaining 0) as [Hrem|Hrem];
    destruct (Z.ltb_spec now1 resetTime) as [Hnow|Hnow]; cbn.
  2-4: (split; [intros [msg [=]]|intros (? & ? & [= <-] & [= <-] & ? & ?); lia]).
  split; [intros _; now exists remaining, resetTime|intros _; eexists; reflexivity].
Qed.

(** X21: [checkRateLimit] refuses exactly when the remaining quota is a
    number not above zero and the reset time is a number after the first
    clock reading. The wait it then announces is enough and is less than a
    second too long: counted from the second clock reading it ends at or
    after the reset time, from where on the check passes; and it is at
    least one second unless the clock passed the reset time between the two
    readings. *)
Theorem checkRateLimit_wait (now1 now2 : Z) (rateLimit : PexelsClient.RateLimit) :
  ((exists msg, PexelsClient.checkRateLimit now1 now2 rateLimit = Throw msg) <->
   exists remaining resetTime,
     PexelsClient.remaining rateLimit = Some remaining /\
     PexelsClient.resetTime rateLimit = Some resetTime /\
     remaining <= 0 /\ now1 < resetTime) /\
  (forall msg,
     PexelsClient.checkRateLimit now1 now2 rateLimit = Throw msg ->
     exists waitTime resetTime,
       msg = "Rate limit exceeded. Reset in " +:+ pretty waitTime +:+ " seconds" /\
       PexelsClient.resetTime rateLimit = Some resetTime /\
       resetTime <= now2 + 1000 * waitTime < resetTime + 1000 /\
       (now2 < resetTime <-> 1 <= waitTime) /\
       forall t t', now2 + 1000 * waitTime <= t ->
                    PexelsClient.checkRateLimit t t' rateLimit = Return tt).
Proof.
  split; [apply checkRateLimit_throws_iff|].
  intros msg Hthrow.
  destruct (proj1 (checkRateLimit_throws_iff now1 now2 rateLimit) (ex_intro _ msg Hthrow))
    as (remaining & resetTime & Hrem & Hreset & Hle & Hlt).
  revert Hthrow. unfold PexelsClient.checkRateLimit. rewrite Hrem, Hreset. cbn.
  destruct (Z.leb_spec remaining 0); [|lia].
  destruct (Z.ltb_spec now1 resetTime); [|lia]. cbn.
  intros [= <-].
  pose proof (Math_ceil_div_bounds (resetTime - now2) 1000 ltac:(lia)) as Hb.
  pose proof (Math_ceil_div_pos (resetTime - now2) 1000 ltac:(lia)) as Hp.
  eexists _, resetTime. split; [reflexivity|]. split; [reflexivity|].
  split; [lia|]. split; [lia|].
  intros t t' Ht.
  destruct (Z.ltb_spec t resetTime); [lia|reflexivity].
Qed.

(** X22: a call of [getVideoDetails] that the rate limit refuses sends no
    request and changes neither the client nor the clock. A call whose
    request fails has sent one request, throws the message that
    [handleError] gives the failure, and keeps the rate-limit state. *)
Theorem getVideoDetails_failure (A : Api) (videoId : Z) (client client' : PexelsClient.t)
  (now now' : Z) (msg : string) :
  PexelsClient.getVideoDetails A videoId (client, now) = (Throw msg, (client', now')) ->
  (PexelsClient.checkRateLimit now now (PexelsClient.rateLimit client) = Throw msg /\
   client' = client /\ now' = now) \/
  (PexelsClient.checkRateLimit now now (PexelsClient.rateLimit client) = Return tt /\
   (exists error, api_video A videoId = rejected error /\
                  msg = PexelsClient.handleError error) /\
   PexelsClient.sent client' = videoId :: PexelsClient.sent client /\
   PexelsClient.rateLimit client' = PexelsClient.rateLimit client /\
   now' = now + api_latency A videoId).
Proof.
  unfold PexelsClient.getVideoDetails.
  destruct (PexelsClient.checkRateLimit now now (PexelsClient.rateLimit client)) as [[]|m].
  - destruct (api_video A videoId) as [headers data|error]; [discriminate|].
    intros [= <- <- <-]. right. split; [reflexivity|]. split; [now exists error|].
    now cbn.
  - intros [= <- <- <-]. now left.
Qed.

(** X23: a call of [getVideoDetails] that returns has sent exactly one
    request and returns the video the API sent. The quota it reports is
    the one the client then holds: the reply shows no quota left and a
    reset at least a second away exactly when a further call at that
    moment would be refused by the rate limit. *)
Theorem getVideoDetails_reports_quota (A : Api) (videoId : Z)
  (client client' : PexelsClient.t) (now now' : Z) (details : VideoDetails) :
  PexelsClient.getVideoDetails A videoId (client, now) = (Return details, (client', now')) ->
  (exists headers, api_video A videoId = fulfilled headers (vd_data details)) /\
  PexelsClient.sent client' = videoId :: PexelsClient.sent client /\
  now' = now + api_latency A videoId /\
  rl_remaining (vd_rate_limit details) = PexelsClient.remaining (PexelsClient.rateLimit client') /\
  ((exists remaining reset_in,
      rl_remaining (vd_rate_limit details) = Some remaining /\
      rl_reset_in (vd_rate_limit details) = Some reset_in /\
      remaining <= 0 /\ 1 <= reset_in) <->
   exists msg, PexelsClient.checkRateLimit now' now' (PexelsClient.rateLimit client') = Throw msg).
Proof.
  unfold PexelsClient.getVideoDetails.
  destruct (PexelsClient.checkRateLimit now now (PexelsClient.rateLimit client)) as [[]|m];
    [|discriminate].
  destruct (api_video A videoId) as [headers data|error]; [|discriminate].
  intros [= <- <- <-]. cbn.
  split; [now exists headers|]. split; [reflexivity|]. split; [reflexivity|].
  split; [reflexivity|].
  set (rl := PexelsClient.intercept headers (PexelsClient.rateLimit client)).
  set (t := now + api_latency A videoId).
  rewrite checkRateLimit_throws_iff.
  destruct rl as [[remaining|] [resetTime|]]; cbn.
  2-4: (split; intros (? & ? & ? & ? & _); discriminate).
  pose proof (Math_ceil_div_pos (resetTime - t) 1000 ltac:(lia)) as Hp.
  split.
  - intros (r & i & [= <-] & [= <-] & Hr & Hi). exists remaining, resetTime.
    repeat (split; [reflexivity|]). lia.
  - intros (r & i & [= <-] & [= <-] & Hr & Hi). eexists _, _.
    repeat (split; [reflexivity|]). lia.
Qed.

Lemma getVideoDetails_failure_witness :
  let A := api_of (rejected (with_response 404 "Not Found")) in
  let client := PexelsClient.new 0 in
  let client' := {| PexelsClient.rateLimit := PexelsClient.rateLimit client;
                    PexelsClient.sent := [7] |} in
  (PexelsClient.checkRateLimit 0 0 (PexelsClient.rateLimit client)
   = Throw "VIDEO_NOT_FOUND: Requested video not found" /\
   client' = client /\ 120 = 0) \/
  (PexelsClient.checkRateLimit 0 0 (PexelsClient.rateLimit client) = Return tt /\
   (exists error, api_video A 7 = rejected error /\
                  "VIDEO_NOT_FOUND: Requested video not found"
                  = PexelsClient.handleError error) /\
   PexelsClient.sent client' = 7 :: PexelsClient.sent client /\
   PexelsClient.rateLimit client' = PexelsClient.rateLimit client /\
   120 = 0 + api_latency A 7).
Proof.
  intros A client client'.
  apply (getVideoDetails_failure A 7 client client' 0 120). reflexivity.
Defined.

Lemma getVideoDetails_reports_quota_witness :
  exists msg,
    PexelsClient.checkRateLimit 120 120
      {| PexelsClient.remaining := Some 0; PexelsClient.resetTime := Some 3600000 |}
    = Throw msg.
Proof.
  pose (A := api_of (fulfilled (quota_headers 0 3600) (asset 7 []))).
  pose (client' := {| PexelsClient.rateLimit :=
                        {| PexelsClient.remaining := Some 0;
                           PexelsClient.resetTime := Some 3600000 |};
                      PexelsClient.sent := [7] |}).
  pose (details := {| vd_status := "success"; vd_data := asset 7 [];
                      vd_rate_limit := {| rl_remaining := Some 0;
                                          rl_reset_in := Some 3600 |} |}).
  destruct (getVideoDetails_reports_quota A 7 (PexelsClient.new 0) client' 0 120 details
              eq_refl) as (_ & _ & _ & _ & Hiff).
  apply Hiff. exists 0, 3600. cbn. repeat split; lia.
Defined.

(** * Properties of the tool handlers *)

(** X24: [handleGetVideoDetails] reads through the cache. A call that
    finds nothing in the cache and returns has sent one request and
    recorded one [get_video_details] call. From then on, in any state that
    holds the same cache entry for the key and whose clock is not past the
    cache lifetime counted from the end of that call, the handler returns
    the same details whatever the API would answer, and changes nothing:
    no request is sent and no call is recorded. *)
Theorem handleGetVideoDetails_cached (A : Api) (video_id : Z) (s s1 : Server)
  (details : VideoDetails) :
  handleGetVideoDetails A video_id s = (Return details, s1) ->
  fst (CacheManager.get ("video_" +:+ pretty video_id) (server_now s) (cacheManager s))
  = None ->
  PexelsClient.sent (pexelsClient s1) = video_id :: PexelsClient.sent (pexelsClient s) /\
  usageTracker s1
  = UsageTracker.recordApiCall "get_video_details" (server_now s1) (usageTracker s) /\
  forall (A' : Api) (s2 : Server),
    CacheManager.cache (cacheManager s2) !! ("video_" +:+ pretty video_id)
    = CacheManager.cache (cacheManager s1) !! ("video_" +:+ pretty video_id) ->
    server_now s2 <= server_now s1 + CacheManager.duration (cacheManager s) * 1000 ->
    handleGetVideoDetails A' video_id s2 = (Return details, s2).
Proof.
  unfold handleGetVideoDetails, cache_get, cache_set, usage_recordApiCall,
    client_getVideoDetails, bind, ret, zoom, modify.
  set (key := "video_" +:+ pretty video_id).
  destruct (CacheManager.get key (server_now s) (cacheManager s)) as [v c] eqn:Hget.
  cbn [fst]. intros Hrun ->.
  assert (Hduration : CacheManager.duration c = CacheManager.duration (cacheManager s)).
  { revert Hget. unfold CacheManager.get.
    destruct (CacheManager.cache (cacheManager s) !! key) as [entry|];
      [destruct (CacheManager.expiresAt entry <? _)|]; now intros [= <-]. }
  revert Hrun.
  destruct (PexelsClient.getVideoDetails A video_id
              (pexelsClient (set_cacheManager c s), server_now (set_cacheManager c s)))
    as [[d|msg] [client' now']] eqn:Hfetch; [|discriminate].
  intros [= <- <-].
  split.
  { unfold PexelsClient.getVideoDetails in Hfetch. cbn in Hfetch.
    destruct (PexelsClient.checkRateLimit _ _ _) as [[]|]; [|discriminate].
    destruct (api_video A video_id); [|discriminate].
    now injection Hfetch as <- <- <-. }
  split; [reflexivity|].
  intros A' s2 Hentry Hnow. destruct s2 as [client2 cache2 usage2 dm2].
  cbn in Hentry, Hnow |- *. unfold server_now in *. cbn in Hentry, Hnow |- *.
  unfold CacheManager.get. rewrite Hentry.
  unfold CacheManager.set. cbn. rewrite lookup_insert_eq. cbn.
  rewrite Hduration.
  destruct (Z.ltb_spec (now' + CacheManager.duration (cacheManager s) * 1000)
                       (clock (world dm2))); [lia|reflexivity].
Qed.

Lemma handleGetVideoDetails_cached_witness :
  let A := api_of (fulfilled (quota_headers 199 3600) (asset 7 [])) in
  let A' := api_of (rejected with_request) in
  let s1 := snd (handleGetVideoDetails A 7 (new_server 3600)) in
  fst (handleGetVideoDetails A' 7 (at_time 3600120 s1))
  = fst (handleGetVideoDetails A 7 (new_server 3600)).
Proof.
  intros A A' s1.
  destruct (handleGetVideoDetails A 7 (new_server 3600)) as [[details|msg] s1'] eqn:Hrun;
    [|discriminate Hrun].
  destruct (handleGetVideoDetails_cached A 7 (new_server 3600) s1' details Hrun eq_refl)
    as (_ & _ & Hagain).
  subst s1. cbn [snd fst].
  rewrite (Hagain A' (at_time 3600120 s1')); [reflexivity|reflexivity|].
  injection Hrun as _ <-. vm_compute. discriminate.
Defined.

(** X25: [handleGetVideoDetails] does not cache a failure. When it throws,
    the cache holds nothing for the key afterwards, no call has been
    recorded, and the download manager and the files are as they were. *)
Theorem handleGetVideoDetails_failure (A : Api) (video_id : Z) (s s1 : Server)
  (msg : string) :
  handleGetVideoDetails A video_id s = (Throw msg, s1) ->
  CacheManager.cache (cacheManager s1) !! ("video_" +:+ pretty video_id) = None /\
  usageTracker s1 = usageTracker s /\
  this (downloadManager s1) = this (downloadManager s) /\
  metadataFile (world (downloadManager s1)) = metadataFile (world (downloadManager s)) /\
  disk (world (downloadManager s1)) = disk (world (downloadManager s)).
Proof.
  unfold handleGetVideoDetails, cache_get, cache_set, usage_recordApiCall,
    client_getVideoDetails, bind, ret, zoom, modify.
  set (key := "video_" +:+ pretty video_id).
  unfold CacheManager.get.
  destruct (CacheManager.cache (cacheManager s) !! key) as [entry|] eqn:Hentry;
    [destruct (CacheManager.expiresAt entry <? server_now s); [|discriminate]|];
    (destruct (PexelsClient.getVideoDetails _ _ _) as [[d|m] [client' now']];
     [discriminate|]); intros [= <- <-]; cbn;
    repeat match goal with |- _ /\ _ => split end; try reflexivity.
  - apply lookup_delete_eq.
  - exact Hentry.
Qed.

Lemma handleGetVideoDetails_failure_witness :
  let A := api_of (rejected (with_response 429 "Too Many Requests")) in
  usageTracker (snd (handleGetVideoDetails A 7 (new_server 3600))) = [].
Proof.
  intros A.
  destruct (handleGetVideoDetails A 7 (new_server 3600)) as [[details|msg] s1] eqn:Hrun;
    [discriminate Hrun|].
  destruct (handleGetVideoDetails_failure A 7 (new_server 3600) s1 msg Hrun)
    as (_ & Husage & _).
  exact Husage.
Defined.



(** * Properties of the usage tracker *)

Lemma List_filter_cons {A : Type} (f : A -> bool) (x : A) (l : list A) :
  List.filter f (x :: l) = if f x then x :: List.filter f l else List.filter f l.
Proof. reflexivity. Qed.

Lemma List_filter_nil {A : Type} (f : A -> bool) : List.filter f [] = [].
Proof. reflexivity. Qed.

Lemma List_filter_length_mono {A : Type} (p q : A -> bool) (l : list A) :
  (forall x, p x = true -> q x = true) ->
  (length (List.filter p l) <= length (List.filter q l))%nat.
Proof.
  intros Himp. induction l as [|x l IH]; [rewrite !List_filter_nil; lia|].
  rewrite !List_filter_cons. destruct (p x) eqn:Hp.
  - rewrite (Himp x Hp). cbn. lia.
  - destruct (q x); cbn; lia.
Qed.

Lemma List_filter_filter {A : Type} (p q : A -> bool) (l : list A) :
  List.filter p (List.filter q l) = List.filter (fun x => q x && p x) l.
Proof.
  induction l as [|x l IH]; [reflexivity|].
  rewrite !List_filter_cons. destruct (q x); cbn [andb].
  - rewrite List_filter_cons. destruct (p x); now rewrite IH.
  - exact IH.
Qed.

Lemma List_filter_ext_weak {A : Type} (p q : A -> bool) (l : list A) :
  (forall x, p x = q x) -> List.filter p l = List.filter q l.
Proof.
  intros Heq. induction l as [|x l IH]; [reflexivity|].
  rewrite !List_filter_cons, Heq, IH. reflexivity.
Qed.

Lemma List_filter_disjoint_length {A : Type} (p q : A -> bool) (l : list A) :
  (forall x, p x = true -> q x = false) ->
  (length (List.filter p l) + length (List.filter q l) <= length l)%nat.
Proof.
  intros Hdis. induction l as [|x l IH]; [rewrite !List_filter_nil; cbn; lia|].
  rewrite !List_filter_cons. destruct (p x) eqn:Hp.
  - rewrite (Hdis x Hp). cbn. lia.
  - destruct (q x); cbn; lia.
Qed.

Lemma getPeriodMs_cases (period : string) :
  UsageTracker.getPeriodMs period = 3600000 \/
  UsageTracker.getPeriodMs period = 86400000 \/
  UsageTracker.getPeriodMs period = 2592000000.
Proof.
  unfold UsageTracker.getPeriodMs.
  repeat match goal with |- context [if ?b then _ else _] => destruct b end; tauto.
Qed.

Lemma fold_left_min_le (l : list Z) (a : Z) :
  fold_left Z.min l a <= a /\ forall x, x ∈ l -> fold_left Z.min l a <= x.
Proof.
  revert a. induction l as [|y l IH]; intros a; cbn.
  - split; [lia|]. intros x Hx. inversion Hx.
  - destruct (IH (Z.min a y)) as [Ha Hl]. split; [lia|].
    intros x Hx. apply elem_of_cons in Hx as [->|Hx]; [lia|now apply Hl].
Qed.

Lemma fold_left_max_ge (l : list Z) (a : Z) :
  a <= fold_left Z.max l a /\ forall x, x ∈ l -> x <= fold_left Z.max l a.
Proof.
  revert a. induction l as [|y l IH]; intros a; cbn.
  - split; [lia|]. intros x Hx. inversion Hx.
  - destruct (IH (Z.max a y)) as [Ha Hl]. split; [lia|].
    intros x Hx. apply elem_of_cons in Hx as [->|Hx]; [lia|now apply Hl].
Qed.

Lemma Math_min_max_bounds (l : list Z) (x : Z) :
  x ∈ l -> UsageTracker.Math_min l <= x <= UsageTracker.Math_max l.
Proof.
  destruct l as [|a l]; [intros Hx; inversion Hx|].
  intros Hx. cbn.
  destruct (fold_left_min_le l a) as [Hmin Hmins].
  destruct (fold_left_max_ge l a) as [Hmax Hmaxs].
  apply elem_of_cons in Hx as [->|Hx]; [lia|].
  split; [now apply Hmins|now apply Hmaxs].
Qed.

(** X27: the figures of [getStats] fit together. The counts of calls and
    of downloads for the hour do not exceed those for the day, nor those
    for the day those for the month. For every period: the two named kinds
    of call do not add up to more than the total; [hits_per_hour] is the
    total of the hour; [current_remaining] lies between 0 and 200 and is
    zero exactly from 200 hits on; the time reported as [last_reset] is a
    full hour that is not in the past and less than an hour ahead; and
    [first_call] and [last_call] enclose the time of every record. *)
Theorem getStats_consistent (now : Z) (w : World) (usageData : UsageTracker.t) :
  let hour := UsageTracker.getStats (Some "hour") now w usageData in
  let day := UsageTracker.getStats (Some "day") now w usageData in
  let month := UsageTracker.getStats (Some "month") now w usageData in
  (UsageTracker.api_calls_total hour <= UsageTracker.api_calls_total day
   /\ UsageTracker.api_calls_total day <= UsageTracker.api_calls_total month)%nat /\
  (UsageTracker.downloads_individual hour <= UsageTracker.downloads_individual day
   /\ UsageTracker.downloads_individual day <= UsageTracker.downloads_individual month)%nat /\
  forall period,
    let stats := UsageTracker.getStats period now w usageData in
    (UsageTracker.api_calls_search_videos stats
     + UsageTracker.api_calls_get_video_details stats
     <= UsageTracker.api_calls_total stats)%nat /\
    UsageTracker.rate_limits_hits_per_hour stats = UsageTracker.api_calls_total hour /\
    0 <= UsageTracker.rate_limits_current_remaining stats <= 200 /\
    (UsageTracker.rate_limits_current_remaining stats = 0
     <-> (200 <= UsageTracker.rate_limits_hits_per_hour stats)%nat) /\
    now <= UsageTracker.rate_limits_last_reset stats < now + 3600000 /\
    (3600000 | UsageTracker.rate_limits_last_reset stats) /\
    forall usage,
      usage ∈ usageData ->
      UsageTracker.timestamps_first_call stats
      <= UsageTracker.timestamp usage
      <= UsageTracker.timestamps_last_call stats.
Proof.
  cbv zeta. unfold UsageTracker.getStats. cbn.
  change (UsageTracker.getPeriodMs "hour") with 3600000.
  change (UsageTracker.getPeriodMs "day") with 86400000.
  change (UsageTracker.getPeriodMs "month") with 2592000000.
  rewrite !List_filter_filter.
  split; [|split].
  - split; apply List_filter_length_mono; intros x Hx;
      apply andb_true_iff in Hx as [Ht Hty]; apply andb_true_iff; (split; [lia|exact Hty]).
  - split; apply List_filter_length_mono; intros x Hx;
      apply andb_true_iff in Hx as [Ht Hty]; apply andb_true_iff; (split; [lia|exact Hty]).
  - intros period. split; [|split; [|split; [|split; [|split; [|split]]]]].
    + apply List_filter_disjoint_length. intros x Hx.
      unfold UsageTracker.has_action in *.
      destruct (UsageTracker.action (UsageTracker.details x)) as [a|]; [|discriminate].
      apply String.eqb_eq in Hx as ->. reflexivity.
    + reflexivity.
    + lia.
    + lia.
    + pose proof (Math_ceil_div_bounds now 3600000 ltac:(lia)). lia.
    + apply Z.divide_factor_r.
    + intros usage Hin.
      assert (Hts : UsageTracker.timestamp usage ∈ map UsageTracker.timestamp usageData)
        by (apply list_elem_of_fmap; now exists usage).
      destruct usageData as [|u l]; [inversion Hin|].
      cbn [length Nat.ltb Nat.leb]. apply Math_min_max_bounds. exact Hts.
Qed.

Lemma fold_left_snoc {A B : Type} (f : A -> B -> A) (l : list B) (x : B) (a : A) :
  fold_left f (l ++ [x])%list a = f (fold_left f l a) x.
Proof. now rewrite fold_left_app. Qed.

(** X28: what is recorded is counted. A record made at a time inside the
    period asked for raises the figures of [getStats] as follows: a
    [search_videos] or [get_video_details] call raises its own count and
    the total of calls by one; a download raises [individual] and the
    total of downloads by one, whatever size is given; a batch of [count]
    raises [batch] and the total of downloads by [count]. Each leaves the
    other counts alone. *)
Theorem recorded_usage_is_counted (period : option string) (now t : Z) (w : World)
  (usageData : UsageTracker.t) :
  t - UsageTracker.getPeriodMs (default "hour" period) <= now ->
  let stats := fun usageData => UsageTracker.getStats period t w usageData in
  let before := stats usageData in
  (let after := stats (UsageTracker.recordApiCall "search_videos" now usageData) in
   UsageTracker.api_calls_search_videos after
   = S (UsageTracker.api_calls_search_videos before) /\
   UsageTracker.api_calls_get_video_details after
   = UsageTracker.api_calls_get_video_details before /\
   UsageTracker.api_calls_total after = S (UsageTracker.api_calls_total before) /\
   UsageTracker.downloads_total after = UsageTracker.downloads_total before) /\
  (let after := stats (UsageTracker.recordApiCall "get_video_details" now usageData) in
   UsageTracker.api_calls_search_videos after
   = UsageTracker.api_calls_search_videos before /\
   UsageTracker.api_calls_get_video_details after
   = S (UsageTracker.api_calls_get_video_details before) /\
   UsageTracker.api_calls_total after = S (UsageTracker.api_calls_total before) /\
   UsageTracker.downloads_total after = UsageTracker.downloads_total before) /\
  (forall size,
     let after := stats (UsageTracker.recordDownload size now usageData) in
     UsageTracker.downloads_individual after
     = S (UsageTracker.downloads_individual before) /\
     UsageTracker.downloads_batch after = UsageTracker.downloads_batch before /\
     UsageTracker.downloads_total after = UsageTracker.downloads_total before + 1 /\
     UsageTracker.api_calls_total after = UsageTracker.api_calls_total before) /\
  (forall count,
     let after := stats (UsageTracker.recordBatchDownload count now usageData) in
     UsageTracker.downloads_individual after = UsageTracker.downloads_individual before /\
     UsageTracker.downloads_batch after = UsageTracker.downloads_batch before + count /\
     UsageTracker.downloads_total after = UsageTracker.downloads_total before + count /\
     UsageTracker.api_calls_total after = UsageTracker.api_calls_total before).
Proof.
  intros Hin. cbv zeta.
  unfold UsageTracker.getStats, UsageTracker.recordApiCall, UsageTracker.recordDownload,
    UsageTracker.recordBatchDownload.
  set (periodStart := t - UsageTracker.getPeriodMs (default "hour" period)).
  assert (Hnow : (periodStart <=? now) = true) by (apply Z.leb_le; exact Hin).
  cbn.
  repeat match goal with |- _ /\ _ => split end; intros;
    repeat match goal with |- _ /\ _ => split end;
    repeat first [ rewrite List.filter_app | rewrite List_filter_cons
                 | rewrite List_filter_nil | rewrite Hnow | rewrite app_nil_r
                 | rewrite length_app | rewrite fold_left_snoc | progress cbn ];
    first [ lia
          | match goal with
            | |- context [default 0 (match ?c with 0 => _ | _ => _ end)] =>
                destruct c; cbn; lia
            end ].
Qed.

Lemma recorded_usage_is_counted_witness :
  UsageTracker.downloads_total
    (UsageTracker.getStats (Some "day") 86400000 empty_world
       (UsageTracker.recordBatchDownload 5 1000 []))
  = UsageTracker.downloads_total (UsageTracker.getStats (Some "day") 86400000 empty_world [])
    + 5.
Proof.
  destruct (recorded_usage_is_counted (Some "day") 1000 86400000 empty_world [])
    as (_ & _ & _ & Hbatch).
  - vm_compute. discriminate.
  - destruct (Hbatch 5) as (_ & _ & Htotal & _). exact Htotal.
Defined.

(** X29: [cleanup] keeps, in their order, exactly the records younger than
    thirty days, and running it again at the same time removes nothing
    more. It does not change what [getStats] counts for a period that
    starts after the cutoff, that is, for the hour and the day at any time
    from the cleanup on and for the month at any later time. *)
Theorem cleanup_keeps_counts (now : Z) (usageData : UsageTracker.t) :
  (forall usage,
     usage ∈ UsageTracker.cleanup now usageData
     <-> usage ∈ usageData /\ now - 2592000000 < UsageTracker.timestamp usage) /\
  sublist (UsageTracker.cleanup now usageData) usageData /\
  UsageTracker.cleanup now (UsageTracker.cleanup now usageData)
  = UsageTracker.cleanup now usageData /\
  forall (period : option string) (t : Z) (w : World),
    now - 2592000000 < t - UsageTracker.getPeriodMs (default "hour" period) ->
    let before := UsageTracker.getStats period t w usageData in
    let after := UsageTracker.getStats period t w (UsageTracker.cleanup now usageData) in
    UsageTracker.api_calls_search_videos after = UsageTracker.api_calls_search_videos before /\
    UsageTracker.api_calls_get_video_details after
    = UsageTracker.api_calls_get_video_details before /\
    UsageTracker.api_calls_total after = UsageTracker.api_calls_total before /\
    UsageTracker.downloads_individual after = UsageTracker.downloads_individual before /\
    UsageTracker.downloads_batch after = UsageTracker.downloads_batch before /\
    UsageTracker.downloads_total after = UsageTracker.downloads_total before.
Proof.
  unfold UsageTracker.cleanup. cbv zeta.
  split; [|split; [|split]].
  - intros usage. rewrite !list_elem_of_In, filter_In, Z.ltb_lt. reflexivity.
  - induction usageData as [|u l IH]; [constructor|].
    rewrite List_filter_cons. destruct (_ <? _); now constructor.
  - rewrite List_filter_filter. apply List_filter_ext_weak. intros x.
    now destruct (_ <? _).
  - intros period t w Hstart. unfold UsageTracker.getStats. cbn.
    set (periodStart := t - UsageTracker.getPeriodMs (default "hour" period)) in *.
    assert (Hsame : List.filter (fun usage => periodStart <=? UsageTracker.timestamp usage)
                      (List.filter (fun usage => now - 2592000000
                                                 <? UsageTracker.timestamp usage) usageData)
                    = List.filter (fun usage => periodStart <=? UsageTracker.timestamp usage)
                        usageData).
    { rewrite List_filter_filter. apply List_filter_ext_weak. intros x.
      destruct (Z.leb_spec periodStart (UsageTracker.timestamp x));
        destruct (Z.ltb_spec (now - 2592000000) (UsageTracker.timestamp x));
        reflexivity || lia. }
    rewrite Hsame. repeat split; reflexivity.
Qed.

Lemma cleanup_keeps_counts_witness :
  let usageData := UsageTracker.recordDownload None 2592000000
                     (UsageTracker.recordDownload None 0 []) in
  UsageTracker.downloads_individual
    (UsageTracker.getStats (Some "day") 2592000000 empty_world
       (UsageTracker.cleanup 2592000000 usageData))
  = 1%nat.
Proof.
  intros usageData.
  destruct (cleanup_keeps_counts 2592000000 usageData) as (_ & _ & _ & Hstats).
  destruct (Hstats (Some "day") 2592000000 empty_world) as (_ & _ & _ & Hind & _).
  - vm_compute. reflexivity.
  - rewrite Hind. reflexivity.
Defined.

(** The ledger after a run of [organizeByCategory]: the file is untouched,
    or its records are replaced one for one by records of the same
    assets. *)
Lemma organizeByCategory_ledger (E : Env) (downloadPath : string)
  (options : OrganizationOptions) (w : World) :
  let w' := snd (organizeByCategory E downloadPath options w) in
  metadataFile w' = metadataFile w \/
  exists records records',
    metadataFile w = Json records /\ metadataFile w' = Json records' /\
    Forall2 same_asset records records'.
Proof.
  cbv zeta.
  destruct (chosen_rules options) as [rules|] eqn:Hrules.
  2: { rewrite organizeByCategory_invalid by exact Hrules. now left. }
  destruct (metadataFile w) as [| |records] eqn:Hf.
  - rewrite (proj1 (organizeByCategory_unreadable E downloadPath options w rules Hrules) Hf).
    left. exact Hf.
  - destruct (proj2 (organizeByCategory_unreadable E downloadPath options w rules Hrules) Hf)
      as (msg & ->).
    left. exact Hf.
  - destruct (organizeByCategory_loop E downloadPath options w rules records Hrules Hf)
      as (records' & o & Hm & Hsame & ->).
    pose proof (respects_mapM org_rel _ records
                  (organize_video_org_rel E rules (chosen_scheme options) downloadPath)
                  {| result := fresh_result; org_world := w |}) as (Hled & _).
    rewrite Hm in Hled. cbn in Hled.
    destruct (env_writeJson E records'); cbn.
    + right. exists records, records'. now repeat split.
    + left. now rewrite Hled.
Qed.

Lemma total_size_same_assets (records records' : list VideoMetadata) (a : Z) :
  Forall2 same_asset records records' ->
  fold_left (fun sum video => sum + default 0 (truthy_Z (Some (vm_file_size video))))
            records' a
  = fold_left (fun sum video => sum + default 0 (truthy_Z (Some (vm_file_size video))))
              records a.
Proof.
  intros Hsame. revert a. induction Hsame as [|v v' l l' (_ & _ & Hsize & _) _ IH]; intros a.
  - reflexivity.
  - cbn [fold_left]. rewrite Hsize. apply IH.
Qed.

Lemma total_size_sum (records : list VideoMetadata) (a : Z) :
  fold_left (fun sum video => sum + default 0 (truthy_Z (Some (vm_file_size video))))
            records a
  = a + fold_right Z.add 0 (map vm_file_size records).
Proof.
  revert a. induction records as [|v l IH]; intros a; cbn [fold_left map fold_right]; [lia|].
  rewrite IH. destruct (vm_file_size v); cbn; lia.
Qed.

(** X30: the storage figures of the usage statistics are those of the
    ledger: the number of its records and the sum of their sizes, and zero
    for a ledger that is missing or unreadable. A run of
    [organizeByCategory], whatever its outcome, leaves them as they are. *)
Theorem storage_stats_follow_ledger (E : Env) (downloadPath : string)
  (options : OrganizationOptions) (w : World) :
  UsageTracker.total_files (UsageTracker.calculateStorageStats w)
  = length (ledger_records w) /\
  UsageTracker.total_size_bytes (UsageTracker.calculateStorageStats w)
  = fold_right Z.add 0 (map vm_file_size (ledger_records w)) /\
  UsageTracker.calculateStorageStats (snd (organizeByCategory E downloadPath options w))
  = UsageTracker.calculateStorageStats w.
Proof.
  split; [|split].
  - unfold UsageTracker.calculateStorageStats, ledger_records.
    now destruct (metadataFile w).
  - unfold UsageTracker.calculateStorageStats, ledger_records.
    destruct (metadataFile w); [reflexivity..|]. cbn. now rewrite total_size_sum.
  - destruct (organizeByCategory_ledger E downloadPath options w)
      as [Hsame|(records & records' & Hf & Hf' & Hsame)];
      unfold UsageTracker.calculateStorageStats.
    + now rewrite Hsame.
    + rewrite Hf, Hf'. rewrite (total_size_same_assets records records' 0 Hsame).
      now rewrite (Forall2_length _ _ _ Hsame).
Qed.
